(** * NEXUS-AAL: the workflow execution orchestrator

    A shallow embedding of the server's execution loop
    (the [/api/executions/execute] handler and its background task), of
    the step runner [executeAgentStep] of [src/services/geminiService.ts],
    and of the read-only handlers [/api/executions/:id] and
    [/api/analytics/overview], together with the properties the
    specification states about them. The planner [generateWorkflowPlan],
    the handlers [/api/workflows/create] and [/api/executions], the
    [clients] map with [broadcast], and the dashboard's [handleExecute]
    are embedded as well, with further properties of the code.

    Conventions of the embedding:
    - JavaScript values that flow through the code untyped ([any]) are
      values of [JsVal]; property reads follow the language (reading a
      property of [null] or [undefined] throws a [TypeError]). Plans are
      typed as the [WorkflowStep] interface declares them.
    - [try]/[catch], [throw] and the early [return] of the background task
      are explicit completions of a small monad that also records, in
      order, the effects of the task: database statements, broadcasts and
      calls of the step runner. What the program, [JSON.parse] and the
      database driver throw is an [Error] instance; a promise of the SDK
      that a handler or the step runner awaits may reject with any
      reason, an [Error] instance or a primitive such as [undefined].
    - The database is the three tables the code reads and writes; a
      statement is a value of [DbWrite] and [db_apply] gives its effect.
      A column that stores JSON text is modelled by the value the text
      denotes; a timestamp column by whether it is set. Identifiers are
      fresh [uuidv4()] texts, so no INSERT is refused for its primary key;
      a statement fails only when the driver refuses to bind a parameter,
      and [broadcast] does not throw. What a request carries
      ([req.body.workflowId], [req.body.prompt]) is any JSON value, and
      is bound unchecked as the code binds it.
    - External collaborators (the generative model behind
      [ai.models.generateContent], [JSON.parse], the parameter binding of
      the database driver, [uuidv4]) are parameters. *)

From Stdlib Require Import ZArith QArith Qround Lia Lqa.
From stdpp Require Import base option list strings pretty gmap fin_maps.

Local Open Scope string_scope.
Local Open Scope list_scope.

(** ** JavaScript values *)

(** Values as [JSON.parse] produces them, plus [undefined]. Number
    literals are never computed with by the code under study; only whether
    a number is zero matters (truthiness), so integers stand for them. *)
#[warnings="-register-all"]
Inductive JsVal : Type :=
| JUndefined
| JNull
| JBool (b : bool)
| JNum (n : Z)
| JStr (s : string)
| JArr (items : list JsVal)
| JObj (props : list (string * JsVal)).

(** An [Error] instance; the code only ever reads its [message]. *)
Record JsError : Type := mkError { message : string }.

(** Completion of an expression or of a function body. *)
Inductive Completion (A : Type) : Type :=
| Normal (a : A)
| Throw (e : JsError).
Arguments Normal {A} a.
Arguments Throw {A} e.

Definition cbind {A B} (m : Completion A) (f : A -> Completion B) : Completion B :=
  match m with
  | Normal a => f a
  | Throw e => Throw e
  end.

(** [try { body } catch (error) { handler error }] *)
Definition try_catch {A} (body : Completion A) (handler : JsError -> Completion A)
  : Completion A :=
  match body with
  | Normal a => Normal a
  | Throw e => handler e
  end.

(** ToBoolean *)
Definition truthy (v : JsVal) : bool :=
  match v with
  | JUndefined | JNull => false
  | JBool b => b
  | JNum n => negb (n =? 0)%Z
  | JStr s => negb (String.eqb s EmptyString)
  | JArr _ | JObj _ => true
  end.

Fixpoint assoc (key : string) (props : list (string * JsVal)) : option JsVal :=
  match props with
  | [] => None
  | (k, v) :: rest => if String.eqb k key then Some v else assoc key rest
  end.

(** [value.key] for the property names the server reads off a runner
    result ([success], [result], [error]) and off what a [catch] receives
    ([message]): none of them is defined on the prototypes of booleans,
    numbers, strings or arrays, so only an object's own properties can
    supply them. *)
Definition js_get (value : JsVal) (key : string) : Completion JsVal :=
  match value with
  | JUndefined =>
      Throw (mkError ("Cannot read properties of undefined (reading '" +:+ key +:+ "')"))
  | JNull =>
      Throw (mkError ("Cannot read properties of null (reading '" +:+ key +:+ "')"))
  | JObj props => Normal (default JUndefined (assoc key props))
  | JBool _ | JNum _ | JStr _ | JArr _ => Normal JUndefined
  end.

(** ** Plans and the execution context *)

Inductive AgentType : Type :=
| orchestrator | data | communication | integration | analysis | validation | recovery.

Record WorkflowStep : Type := mkStep {
  name : string;
  description : string;
  agentType : AgentType;
  action : string;
  params : JsVal
}.

(** The [context] object of one execution: its own enumerable properties,
    and its prototype when that is no longer [Object.prototype]. *)
Record Context : Type := mkContext {
  own : gmap string JsVal;
  proto : option JsVal
}.

(** [const context = {}] *)
Definition empty_context : Context := {| own := ∅; proto := None |}.

Definition is_object_or_null (v : JsVal) : bool :=
  match v with
  | JNull | JArr _ | JObj _ => true
  | _ => false
  end.

(** Whether a [[Set]] of [__proto__] that starts at the prototype [p] of
    the context reaches the accessor of [Object.prototype]: a [null]
    prototype ends the chain before it, and a prototype object that owns a
    data property of that name shadows it. *)
Definition reaches_proto_setter (p : option JsVal) : bool :=
  match p with
  | None => true
  | Some (JObj props) => negb (bool_decide (is_Some (assoc "__proto__" props)))
  | Some JNull => false
  | Some _ => true
  end.

(** [Object.assign(context, { [key]: value })].

    The source object owns exactly one enumerable property, [key] (a
    computed key always defines an own property), and [Object.assign]
    stores it with [[Set]] on the target. For every key but [__proto__]
    this defines or overwrites the own property. For [__proto__] the
    accessor inherited from [Object.prototype] runs instead, unless the
    context already owns such a property or its chain no longer reaches the
    accessor: the setter replaces the prototype when the value is an
    object or [null], ignores any other value, and defines no own
    property. *)
Definition Object_assign (context : Context) (key : string) (value : JsVal) : Context :=
  if bool_decide (key = "__proto__")
       && negb (bool_decide (is_Some (own context !! key)))
       && reaches_proto_setter (proto context)
  then
    if is_object_or_null value
    then {| own := own context; proto := Some value |}
    else context
  else {| own := <[key := value]> (own context); proto := proto context |}.

(** ** The step runner: [src/services/geminiService.ts] *)

(** A value that is not an object. *)
Inductive Primitive : Type :=
| PUndefined
| PNull
| PBool (b : bool)
| PNum (n : Z)
| PStr (s : string).

Definition primitive_value (p : Primitive) : JsVal :=
  match p with
  | PUndefined => JUndefined
  | PNull => JNull
  | PBool b => JBool b
  | PNum n => JNum n
  | PStr s => JStr s
  end.

(** What a [catch (error: any)] can receive from an awaited promise: an
    object, of which the code reads only the [message] (an [Error]
    instance, as the SDK rejects with), or a primitive, [undefined] when
    the promise was rejected with no reason. *)
Inductive Thrown : Type :=
| ThrownError (e : JsError)
| ThrownPrimitive (p : Primitive).

(** [error.message] on what was caught: [undefined] and [null] have no
    properties, and the other primitives have no [message]. *)
Definition thrown_message (error : Thrown) : Completion JsVal :=
  match error with
  | ThrownError e => Normal (JStr (message e))
  | ThrownPrimitive p => js_get (primitive_value p) "message"
  end.

(** How an awaited promise settles: rejected with a reason, or resolved
    to a value. *)
Inductive Settled (E A : Type) : Type :=
| Rejected (reason : E)
| Resolved (value : A).
Arguments Rejected {E A} reason.
Arguments Resolved {E A} value.

(** What the awaited [ai.models.generateContent] call does: it rejects,
    or resolves to a response whose [text] is a string or [undefined]. *)
Definition ExecutorOutcome (E : Type) : Type := Settled E (option string).

Module GeminiService.
Section Service.

(** The generative model, as a function of the request built from
    [step] and [context]; [call] tells successive calls apart, since the
    model may answer the same request differently. *)
Variable generateContent : nat -> WorkflowStep -> Context -> ExecutorOutcome Thrown.

(** [JSON.parse]: the parsed value, or a thrown [SyntaxError]. *)
Variable JSON_parse : string -> Completion JsVal.

(** [!text] *)
Definition no_text (text : option string) : bool :=
  match text with
  | None => true
  | Some s => String.eqb s EmptyString
  end.

(** [{ success: false, error: msg }] *)
Definition failure (msg : string) : JsVal :=
  JObj [("success", JBool false); ("error", JStr msg)].

(** [error.message || "Unknown error during agent execution"] *)
Definition message_or_unknown (error : JsError) : string :=
  if String.eqb (message error) EmptyString
  then "Unknown error during agent execution"
  else message error.

(** The [catch (error: any)] block:
    [return { success: false, error: error.message || "Unknown error
    during agent execution" }]. It has no [try] around it, so what the
    read of [error.message] throws leaves the function. On a primitive
    the read throws ([undefined], [null]) or gives [undefined], which is
    falsy. *)
Definition catch_error (error : Thrown) : Completion JsVal :=
  match error with
  | ThrownError e => Normal (failure (message_or_unknown e))
  | ThrownPrimitive p =>
      cbind (js_get (primitive_value p) "message") (fun _ =>
        Normal (failure "Unknown error during agent execution"))
  end.

(** The [await] is the first statement of the [try]: a rejection goes to
    the [catch] with its reason, and so does what [JSON.parse] throws. *)
Definition executeAgentStep (call : nat) (step : WorkflowStep) (context : Context)
  : Completion JsVal :=
  match generateContent call step context with
  | Rejected error => catch_error error
  | Resolved text =>
      try_catch
        (if no_text text
         then Normal (failure "Empty response from agent")
         else JSON_parse (default EmptyString text))
        (fun error => catch_error (ThrownError error))
  end.

End Service.
End GeminiService.

(** ** The store: [src/db.ts] *)

(** Row identifiers: the text of a [uuidv4()]. *)
Definition Id : Type := string.

(** The status column; the schema lists these four values. *)
Inductive Status : Type := Pending | Running | Completed | Failed.

#[global] Instance Status_eq_dec : EqDecision Status.
Proof. solve_decision. Defined.

(** A value bound to a statement parameter and stored in a column. *)
Inductive SqlVal : Type :=
| SqlNull
| SqlText (s : string)
| SqlNumber (n : Z).

(** [workflows]; [steps_json] is modelled by the steps it serialises,
    and [original_prompt] holds what the request's [prompt] was bound
    to. *)
Record WorkflowRow : Type := mkWorkflowRow {
  wf_id : Id;
  wf_name : string;
  wf_description : string;
  wf_original_prompt : SqlVal;
  wf_steps_json : list WorkflowStep
}.

(** [workflow_executions] *)
Record ExecutionRow : Type := mkExecutionRow {
  ex_id : Id;
  ex_workflow_id : Id;
  ex_status : Status;
  ex_completed_at : bool;
  ex_error_message : SqlVal
}.

(** [execution_steps]; [st_result_json] is [None] for SQL NULL and
    otherwise the value whose JSON text the column holds. *)
Record StepRow : Type := mkStepRow {
  st_id : Id;
  st_execution_id : Id;
  st_step_index : nat;
  st_name : string;
  st_agent_type : AgentType;
  st_status : Status;
  st_result_json : option JsVal;
  st_error_message : SqlVal;
  st_started_at : bool;
  st_completed_at : bool
}.

Record DB : Type := mkDB {
  workflows : list WorkflowRow;
  workflow_executions : list ExecutionRow;
  execution_steps : list StepRow
}.

Definition empty_db : DB :=
  {| workflows := []; workflow_executions := []; execution_steps := [] |}.

(** The statements the server runs through [db.prepare(...).run(...)],
    named after their SQL and carrying their bound parameters in the
    order of the [?] placeholders. *)
Inductive DbWrite : Type :=
| InsertWorkflow (id : Id) (workflow_name workflow_description : string)
    (original_prompt : SqlVal) (steps_json : list WorkflowStep)
| InsertExecution (id workflow_id : Id) (status : Status)
| InsertExecutionStep (id execution_id : Id) (step_index : nat) (step_name : string)
    (agent_type : AgentType) (status : Status)
| UpdateExecutionStep (status : Status) (result_json : option JsVal)
    (error_message : SqlVal) (id : Id)
| UpdateExecutionStepFailed (error_message : SqlVal) (id : Id)
| UpdateExecutionFailed (error_message : SqlVal) (id : Id)
| UpdateExecutionCompleted (id : Id).

Definition update_where {Row : Type} (matches : Row -> bool) (set : Row -> Row)
    (rows : list Row) : list Row :=
  map (fun row => if matches row then set row else row) rows.

Definition db_apply (db : DB) (w : DbWrite) : DB :=
  match w with
  | InsertWorkflow id workflow_name workflow_description original_prompt steps_json =>
      (* INSERT INTO workflows (id, name, description, original_prompt,
         steps_json) *)
      {| workflows := workflows db ++
           [{| wf_id := id; wf_name := workflow_name;
               wf_description := workflow_description;
               wf_original_prompt := original_prompt;
               wf_steps_json := steps_json |}];
         workflow_executions := workflow_executions db;
         execution_steps := execution_steps db |}
  | InsertExecution id workflow_id status =>
      (* INSERT INTO workflow_executions (id, workflow_id, status) *)
      {| workflows := workflows db;
         workflow_executions := workflow_executions db ++
           [{| ex_id := id; ex_workflow_id := workflow_id; ex_status := status;
               ex_completed_at := false; ex_error_message := SqlNull |}];
         execution_steps := execution_steps db |}
  | InsertExecutionStep id execution_id step_index step_name agent_type status =>
      (* INSERT INTO execution_steps (id, execution_id, step_index, name,
         agent_type, status, started_at) *)
      {| workflows := workflows db;
         workflow_executions := workflow_executions db;
         execution_steps := execution_steps db ++
           [{| st_id := id; st_execution_id := execution_id; st_step_index := step_index;
               st_name := step_name; st_agent_type := agent_type; st_status := status;
               st_result_json := None; st_error_message := SqlNull;
               st_started_at := true; st_completed_at := false |}] |}
  | UpdateExecutionStep status result_json error_message id =>
      (* UPDATE execution_steps SET status = ?, result_json = ?,
         error_message = ?, completed_at = CURRENT_TIMESTAMP WHERE id = ? *)
      {| workflows := workflows db;
         workflow_executions := workflow_executions db;
         execution_steps :=
           update_where (fun row => bool_decide (st_id row = id))
             (fun row =>
                {| st_id := st_id row; st_execution_id := st_execution_id row;
                   st_step_index := st_step_index row; st_name := st_name row;
                   st_agent_type := st_agent_type row; st_status := status;
                   st_result_json := result_json; st_error_message := error_message;
                   st_started_at := st_started_at row; st_completed_at := true |})
             (execution_steps db) |}
  | UpdateExecutionStepFailed error_message id =>
      (* UPDATE execution_steps SET status = 'failed', error_message = ?,
         completed_at = CURRENT_TIMESTAMP WHERE id = ? *)
      {| workflows := workflows db;
         workflow_executions := workflow_executions db;
         execution_steps :=
           update_where (fun row => bool_decide (st_id row = id))
             (fun row =>
                {| st_id := st_id row; st_execution_id := st_execution_id row;
                   st_step_index := st_step_index row; st_name := st_name row;
                   st_agent_type := st_agent_type row; st_status := Failed;
                   st_result_json := st_result_json row; st_error_message := error_message;
                   st_started_at := st_started_at row; st_completed_at := true |})
             (execution_steps db) |}
  | UpdateExecutionFailed error_message id =>
      (* UPDATE workflow_executions SET status = 'failed', error_message = ?,
         completed_at = CURRENT_TIMESTAMP WHERE id = ? *)
      {| workflows := workflows db;
         workflow_executions :=
           update_where (fun row => bool_decide (ex_id row = id))
             (fun row =>
                {| ex_id := ex_id row; ex_workflow_id := ex_workflow_id row;
                   ex_status := Failed; ex_completed_at := true;
                   ex_error_message := error_message |})
             (workflow_executions db);
         execution_steps := execution_steps db |}
  | UpdateExecutionCompleted id =>
      (* UPDATE workflow_executions SET status = 'completed',
         completed_at = CURRENT_TIMESTAMP WHERE id = ? *)
      {| workflows := workflows db;
         workflow_executions :=
           update_where (fun row => bool_decide (ex_id row = id))
             (fun row =>
                {| ex_id := ex_id row; ex_workflow_id := ex_workflow_id row;
                   ex_status := Completed; ex_completed_at := true;
                   ex_error_message := ex_error_message row |})
             (workflow_executions db);
         execution_steps := execution_steps db |}
  end.

(** ** Effects of the background task *)

(** Messages handed to [broadcast]; an absent field is [JUndefined]. *)
Inductive Message : Type :=
| execution_update (executionId : Id) (status : Status) (error : JsVal)
| step_update (executionId stepId : Id) (status : Status) (stepIndex : nat)
    (result error : JsVal).

Inductive Event : Type :=
| Db (w : DbWrite)
| Broadcast (m : Message)
| Invoke (stepIndex : nat) (step : WorkflowStep) (context : Context).

(** How a block of the task ends: it falls through with a value, an
    exception propagates, or the task [return]s. *)
Inductive Flow (A : Type) : Type :=
| Next (a : A)
| Raise (e : JsError)
| Exit.
Arguments Next {A} a.
Arguments Raise {A} e.
Arguments Exit {A}.

(** A block of the task: the effects it performed, in order, and how it
    ended. Effects performed before a throw stay performed. *)
Definition Task (A : Type) : Type := (list Event * Flow A)%type.

Definition ret {A} (a : A) : Task A := ([], Next a).

Definition tbind {A B} (m : Task A) (f : A -> Task B) : Task B :=
  match m with
  | (evs, Next a) => let '(evs', flow) := f a in (evs ++ evs', flow)
  | (evs, Raise e) => (evs, Raise e)
  | (evs, Exit) => (evs, Exit)
  end.

Definition emit (e : Event) : Task unit := ([e], Next tt).

Definition exit {A} : Task A := ([], Exit).

Definition lift {A} (c : Completion A) : Task A :=
  match c with
  | Normal a => ret a
  | Throw e => ([], Raise e)
  end.

Definition task_try {A} (body : Task A) (handler : JsError -> Task A) : Task A :=
  match body with
  | (evs, Raise e) => let '(evs', flow) := handler e in (evs ++ evs', flow)
  | other => other
  end.

Declare Scope task_scope.
Delimit Scope task_scope with task.
Notation "'let*' x ':=' m 'in' k" := (tbind m (fun x => k))
  (at level 10, x name, m at level 100, k at level 200) : task_scope.
Notation "m ';;;' k" := (tbind m (fun _ => k))
  (at level 100, k at level 200, right associativity) : task_scope.

(** ** The server: the execution handler and its background task *)

(** [JSON.stringify(value)] as bound to [result_json]: [undefined] for
    [undefined], which the driver stores as NULL, and the JSON text of the
    value otherwise. *)
Definition JSON_stringify (value : JsVal) : option JsVal :=
  match value with
  | JUndefined => None
  | _ => Some value
  end.

Inductive Body : Type :=
| ErrorBody (error : string)
    (* { error } *)
| ExecutionStarted (executionId : Id)
    (* { executionId } *)
| ExecutionDetail (execution : option ExecutionRow) (steps : list StepRow)
    (* { ...execution, steps } *).

Record Response : Type := mkResponse { http_status : nat; body : Body }.

(** [res.json(body)] *)
Definition res_json (b : Body) : Response := {| http_status := 200; body := b |}.

(** [SELECT * FROM workflows WHERE id = ?] with [.get] *)
Definition select_workflow (db : DB) (id : Id) : option WorkflowRow :=
  find (fun row => bool_decide (wf_id row = id)) (workflows db).

Section Server.
Local Open Scope task_scope.

(** The imported step runner; [call] is the iteration that calls it. *)
Variable executeAgentStep : nat -> WorkflowStep -> Context -> Completion JsVal.

(** How the database driver binds a JavaScript value to a [?]: the
    stored value, or the error it throws for a value it cannot bind. *)
Variable sql_bind : JsVal -> Completion SqlVal.

(** The body of the [try] of iteration [i]. Reading a property of the
    result has no effect, so [result.success], [result.result] and
    [result.error] are each read once. *)
Definition try_block (executionId stepId : Id) (i : nat) (step : WorkflowStep)
    (context : Context) : Task Context :=
  emit (Invoke i step context) ;;;
  let* result := lift (executeAgentStep i step context) in
  let* success := lift (js_get result "success") in
  let status := if truthy success then Completed else Failed in
  let* result_result := lift (js_get result "result") in
  let* result_error := lift (js_get result "error") in
  let* error_message := lift (sql_bind result_error) in
  emit (Db (UpdateExecutionStep status (JSON_stringify result_result) error_message stepId)) ;;;
  emit (Broadcast (step_update executionId stepId status i result_result result_error)) ;;;
  if negb (truthy success) then
    let* error_message := lift (sql_bind result_error) in
    emit (Db (UpdateExecutionFailed error_message executionId)) ;;;
    emit (Broadcast (execution_update executionId Failed result_error)) ;;;
    exit
  else
    ret (Object_assign context (name step) result_result).

(** The [catch (error)] of iteration [i]; [error.message] is a string
    and is bound as text. *)
Definition catch_block (executionId stepId : Id) (error : JsError) : Task Context :=
  emit (Db (UpdateExecutionStepFailed (SqlText (message error)) stepId)) ;;;
  emit (Db (UpdateExecutionFailed (SqlText (message error)) executionId)) ;;;
  emit (Broadcast (execution_update executionId Failed (JStr (message error)))) ;;;
  exit.

(** One iteration of the [for] loop; [stepId] is its [uuidv4()]. *)
Definition iteration (executionId stepId : Id) (i : nat) (step : WorkflowStep)
    (context : Context) : Task Context :=
  emit (Db (InsertExecutionStep stepId executionId i (name step) (agentType step) Running)) ;;;
  emit (Broadcast (step_update executionId stepId Running i JUndefined JUndefined)) ;;;
  task_try (try_block executionId stepId i step context) (catch_block executionId stepId).

(** [for (let i = ...; i < steps.length; i++) { ... }] followed by the
    statements after the loop, from iteration [i] on, where [steps] are
    the steps from index [i]. [stepIds i] is the identifier drawn in
    iteration [i]. *)
Fixpoint for_loop (executionId : Id) (stepIds : nat -> Id) (i : nat)
    (steps : list WorkflowStep) (context : Context) : list Event :=
  match steps with
  | [] =>
      [Db (UpdateExecutionCompleted executionId);
       Broadcast (execution_update executionId Completed JUndefined)]
  | step :: rest =>
      match iteration executionId (stepIds i) i step context with
      | (events, Next context') => events ++ for_loop executionId stepIds (S i) rest context'
      | (events, Raise _) => events
      | (events, Exit) => events
      end
  end.

(** The [async] function started in the background. *)
Definition background_task (executionId : Id) (stepIds : nat -> Id)
    (steps : list WorkflowStep) : list Event :=
  Broadcast (execution_update executionId Running JUndefined)
    :: for_loop executionId stepIds 0 steps empty_context.

(** [POST /api/executions/execute] for a [workflowId] the driver binds
    as text, as the dashboard sends it ([execute_handler] below starts
    from what the request carries): the response, and the effects of the
    handler and of the background task it starts. [executionId] and
    [stepIds] are the identifiers [uuidv4()] returns to this request. *)
Definition post_executions_execute (db : DB) (workflowId : Id)
    (executionId : Id) (stepIds : nat -> Id) : Response * list Event :=
  match select_workflow db workflowId with
  | None =>
      ({| http_status := 404; body := ErrorBody "Workflow not found" |}, [])
  | Some workflow =>
      (res_json (ExecutionStarted executionId),
       Db (InsertExecution executionId workflowId Running)
         :: background_task executionId stepIds (wf_steps_json workflow))
  end.

(** SQLite's rendering of a number as text. *)
Variable number_text : Z -> string.

(** What [id = ?] compares the [id] column with. The column has TEXT
    affinity, so a number is compared, and stored, as its text; NULL
    equals nothing. *)
Definition compared_text (bound : SqlVal) : option Id :=
  match bound with
  | SqlNull => None
  | SqlText s => Some s
  | SqlNumber n => Some (number_text n)
  end.

(** [POST /api/executions/execute] from the request on. [workflowId] is
    [req.body.workflowId], whatever the client sent, and [.get(workflowId)]
    binds it unchecked: when the driver refuses it the handler throws
    before any statement runs; it has no [try] of its own, so it gives no
    response itself. A value that is bound is
    looked up as [post_executions_execute] does; the INSERT binds it once
    more, in the same way. *)
Definition execute_handler (db : DB) (workflowId : JsVal)
    (executionId : Id) (stepIds : nat -> Id) : Completion (Response * list Event) :=
  cbind (sql_bind workflowId) (fun bound =>
    match compared_text bound with
    | None =>
        Normal ({| http_status := 404; body := ErrorBody "Workflow not found" |}, [])
    | Some id => Normal (post_executions_execute db id executionId stepIds)
    end).

End Server.

(** The database statements among the effects, in order. *)
Definition writes_of (events : list Event) : list DbWrite :=
  omap (fun e => match e with Db w => Some w | _ => None end) events.

(** The store after the statements have run on it. *)
Definition db_after (db : DB) (ws : list DbWrite) : DB := foldl db_apply db ws.

(** ** The read-only handlers *)

Definition insert_by_index (row : StepRow) : list StepRow -> list StepRow :=
  fix go (rows : list StepRow) : list StepRow :=
    match rows with
    | [] => [row]
    | r :: rest =>
        if (st_step_index row <=? st_step_index r)%nat then row :: r :: rest
        else r :: go rest
    end.

(** [ORDER BY step_index ASC] *)
Definition order_by_step_index (rows : list StepRow) : list StepRow :=
  foldr insert_by_index [] rows.

(** [GET /api/executions/:id] *)
Definition get_execution (db : DB) (id : Id) : Response :=
  let execution :=
    find (fun row => bool_decide (ex_id row = id)) (workflow_executions db) in
  let steps :=
    order_by_step_index
      (filter (fun row => st_execution_id row = id) (execution_steps db)) in
  res_json (ExecutionDetail execution steps).

(** [COUNT(CASE WHEN status = s THEN 1 END)] over [workflow_executions] *)
Definition count_status (s : Status) (rows : list ExecutionRow) : nat :=
  length (filter (fun row => ex_status row = s) rows).

(** [COUNT(CASE WHEN status = 'completed' THEN 1 END) * 100.0 / COUNT( * )]:
    a real, or NULL when the divisor is zero. Reals are exact rationals
    here: for a table of fewer than 2^45 rows the quotient is a
    half-integer or lies further from every half-integer than its double
    can err, so rounding the double and rounding the rational give the
    same integer. *)
Definition select_rate (rows : list ExecutionRow) : option Q :=
  if (length rows =? 0)%nat then None
  else Some (inject_Z (Z.of_nat (count_status Completed rows)) * 100
               / inject_Z (Z.of_nat (length rows)))%Q.

(** [rate || 0]: NULL reads as [null], and [null] and [0] are falsy. *)
Definition or_zero (rate : option Q) : Q :=
  match rate with
  | None => 0%Q
  | Some q => if Qeq_bool q 0 then 0%Q else q
  end.

(** [Math.round]: the nearest integer, a tie going up. *)
Definition Math_round (x : Q) : Z := Qfloor (x + (1 # 2))%Q.

(** [SELECT status, COUNT( * ) as count FROM workflow_executions GROUP BY
    status]: one row per status that occurs, listed by status text. *)
Definition group_by_status (rows : list ExecutionRow) : list (Status * nat) :=
  filter (fun entry => (0 < snd entry)%nat)
    (map (fun s => (s, count_status s rows)) [Completed; Failed; Pending; Running]).

Record Analytics : Type := mkAnalytics {
  totalWorkflows : nat;
  totalExecutions : nat;
  successRate : Z;
  statusBreakdown : list (Status * nat)
}.

(** [GET /api/analytics/overview] *)
Definition analytics_overview (db : DB) : Analytics :=
  let totalWorkflows := length (workflows db) in
  let totalExecutions := length (workflow_executions db) in
  let successRate := or_zero (select_rate (workflow_executions db)) in
  let recentExecutions := group_by_status (workflow_executions db) in
  {| totalWorkflows := totalWorkflows;
     totalExecutions := totalExecutions;
     successRate := Math_round successRate;
     statusBreakdown := recentExecutions |}.

(** ** Vocabulary of the properties *)

(** The effects of the loop from iteration [i] on, by the way each
    iteration ends: the step completes and the loop goes on with the merged
    context, the runner's result reports failure, or a fault is caught. *)
Inductive Run (executionId : Id) (stepIds : nat -> Id)
  : nat -> list WorkflowStep -> Context -> list Event -> Prop :=
| Run_completed i context :
    Run executionId stepIds i [] context
      [Db (UpdateExecutionCompleted executionId);
       Broadcast (execution_update executionId Completed JUndefined)]
| Run_step_completed i step rest context result error error_message tail :
    Run executionId stepIds (S i) rest (Object_assign context (name step) result) tail ->
    Run executionId stepIds i (step :: rest) context
      (Db (InsertExecutionStep (stepIds i) executionId i (name step) (agentType step) Running)
       :: Broadcast (step_update executionId (stepIds i) Running i JUndefined JUndefined)
       :: Invoke i step context
       :: Db (UpdateExecutionStep Completed (JSON_stringify result) error_message (stepIds i))
       :: Broadcast (step_update executionId (stepIds i) Completed i result error)
       :: tail)
| Run_step_failed i step rest context result error error_message :
    Run executionId stepIds i (step :: rest) context
      [Db (InsertExecutionStep (stepIds i) executionId i (name step) (agentType step) Running);
       Broadcast (step_update executionId (stepIds i) Running i JUndefined JUndefined);
       Invoke i step context;
       Db (UpdateExecutionStep Failed (JSON_stringify result) error_message (stepIds i));
       Broadcast (step_update executionId (stepIds i) Failed i result error);
       Db (UpdateExecutionFailed error_message executionId);
       Broadcast (execution_update executionId Failed error)]
| Run_step_faulted i step rest context fault :
    Run executionId stepIds i (step :: rest) context
      [Db (InsertExecutionStep (stepIds i) executionId i (name step) (agentType step) Running);
       Broadcast (step_update executionId (stepIds i) Running i JUndefined JUndefined);
       Invoke i step context;
       Db (UpdateExecutionStepFailed (SqlText (message fault)) (stepIds i));
       Db (UpdateExecutionFailed (SqlText (message fault)) executionId);
       Broadcast (execution_update executionId Failed (JStr (message fault)))].

(** The index of the step row a statement creates. *)
Definition created_index (w : DbWrite) : option nat :=
  match w with
  | InsertExecutionStep _ _ step_index _ _ _ => Some step_index
  | _ => None
  end.

Definition created_indices (ws : list DbWrite) : list nat := omap created_index ws.

(** The step row a statement records as failed, and the error message it
    stores on it. *)
Definition step_failure (w : DbWrite) : option (Id * SqlVal) :=
  match w with
  | UpdateExecutionStep Failed _ error_message id => Some (id, error_message)
  | UpdateExecutionStepFailed error_message id => Some (id, error_message)
  | _ => None
  end.

(** Whether what a call of the runner came to makes its step fail: the
    call threw, or the [success] of its result cannot be read or is
    falsy. *)
Definition runner_failed (outcome : Completion JsVal) : bool :=
  match outcome with
  | Throw _ => true
  | Normal result =>
      match js_get result "success" with
      | Throw _ => true
      | Normal success => negb (truthy success)
      end
  end.

(** Whether what a call of the runner came to lets its step succeed: a
    result with a truthy [success] whose [error] the driver can bind. *)
Definition runner_succeeded (sql_bind : JsVal -> Completion SqlVal)
    (outcome : Completion JsVal) : bool :=
  match outcome with
  | Throw _ => false
  | Normal result =>
      match js_get result "success", js_get result "error" with
      | Normal success, Normal error =>
          truthy success
          && match sql_bind error with Normal _ => true | Throw _ => false end
      | _, _ => false
      end
  end.

(** The step row a statement records as completed. *)
Definition step_completion (w : DbWrite) : option Id :=
  match w with
  | UpdateExecutionStep Completed _ _ id => Some id
  | _ => None
  end.

(** Whether a statement writes to [workflow_executions]. *)
Definition writes_execution (w : DbWrite) : bool :=
  match w with
  | InsertExecution _ _ _ | UpdateExecutionFailed _ _ | UpdateExecutionCompleted _ => true
  | _ => false
  end.

(** The calls of the step runner among the effects. *)
Definition invocations (events : list Event) : list (nat * WorkflowStep * Context) :=
  omap (fun e => match e with Invoke i step context => Some (i, step, context) | _ => None end)
    events.

(** The step rows of one execution, in the order of their creation. *)
Definition steps_of (executionId : Id) (db : DB) : list StepRow :=
  filter (fun row => st_execution_id row = executionId) (execution_steps db).

Definition is_terminal (s : Status) : bool :=
  match s with
  | Completed | Failed => true
  | Pending | Running => false
  end.

(** What a statement does to the step rows of one execution: [db_apply]
    seen through [steps_of]. *)
Definition steps_apply (executionId : Id) (rows : list StepRow) (w : DbWrite)
  : list StepRow :=
  steps_of executionId
    (db_apply {| workflows := []; workflow_executions := []; execution_steps := rows |} w).

(** Step rows as the loop leaves them before iteration [i]: its own rows,
    one per index below [i], in order, each in a terminal status. *)
Definition settled (executionId : Id) (stepIds : nat -> Id) (i : nat)
    (rows : list StepRow) : Prop :=
  Forall (fun row => st_execution_id row = executionId) rows /\
  Forall (fun row => exists j, st_id row = stepIds j) rows /\
  map st_step_index rows = seq 0 i /\
  Forall (fun row => is_terminal (st_status row) = true) rows.

(** Step rows as they may be observed while a plan of [n] steps runs:
    indices contiguous from 0 in creation order, every row but the last
    in a terminal status, at most one row running. *)
Definition sequential (n : nat) (rows : list StepRow) : Prop :=
  (exists k, (k <= n)%nat /\ map st_step_index rows = seq 0 k) /\
  (forall init last, rows = init ++ [last] ->
     Forall (fun row => is_terminal (st_status row) = true) init) /\
  (length (filter (fun row => st_status row = Running) rows) <= 1)%nat.

(** The same, for rows known to be those of the execution, under the
    identifiers drawn for its steps. *)
Definition observed (executionId : Id) (stepIds : nat -> Id) (n : nat)
    (rows : list StepRow) : Prop :=
  Forall (fun row => st_execution_id row = executionId) rows /\
  Forall (fun row => exists j, st_id row = stepIds j) rows /\
  sequential n rows.

(** A statement of another task: it creates step rows for another
    execution and updates step rows under other identifiers. *)
Definition foreign (executionId : Id) (stepIds : nat -> Id) (w : DbWrite) : Prop :=
  match w with
  | InsertExecutionStep _ execution_id _ _ _ _ => execution_id <> executionId
  | UpdateExecutionStep _ _ _ id | UpdateExecutionStepFailed _ id =>
      forall j, id <> stepIds j
  | _ => True
  end.

(** [all] interleaves the statements of [mine] with those of [others],
    keeping the order of each. *)
Inductive interleaving {A : Type} : list A -> list A -> list A -> Prop :=
| interleaving_nil : interleaving [] [] []
| interleaving_mine x mine others all :
    interleaving mine others all -> interleaving (x :: mine) others (x :: all)
| interleaving_other y mine others all :
    interleaving mine others all -> interleaving mine (y :: others) (y :: all).

(** The steps reported as completed, by index, with the result payload
    their runner returned. *)
Definition completions (events : list Event) : list (nat * JsVal) :=
  omap (fun e =>
          match e with
          | Broadcast (step_update _ _ Completed i result _) => Some (i, result)
          | _ => None
          end) events.

(** Every step row belongs to a stored execution. *)
Definition referential (db : DB) : Prop :=
  Forall (fun row => st_execution_id row ∈ map ex_id (workflow_executions db))
    (execution_steps db).

(** The execution a statement attaches a new step row to. *)
Definition referenced_execution (w : DbWrite) : option Id :=
  match w with
  | InsertExecutionStep _ execution_id _ _ _ _ => Some execution_id
  | _ => None
  end.

(** The success rate in the words of the specification: completed over
    total, times one hundred. *)
Definition success_rate_spec (rows : list ExecutionRow) : Q :=
  (inject_Z (Z.of_nat (count_status Completed rows))
     / inject_Z (Z.of_nat (length rows)) * 100)%Q.

(** [r] is [x] rounded to the nearest integer, a tie going up. *)
Definition rounds_to (x : Q) (r : Z) : Prop :=
  (inject_Z r - (1 # 2) <= x)%Q /\ (x < inject_Z r + (1 # 2))%Q.

(** What the specification asks of a value the step runner returns: a
    failure carries a populated error message, and result and error are
    not both present. *)
Definition is_present (v : JsVal) : bool :=
  match v with
  | JUndefined => false
  | _ => true
  end.

Definition failure_has_message (value : JsVal) : Prop :=
  forall success,
    js_get value "success" = Normal success -> truthy success = false ->
    exists msg, js_get value "error" = Normal (JStr msg) /\ msg <> EmptyString.

Definition result_xor_error (value : JsVal) : Prop :=
  forall result error,
    js_get value "result" = Normal result -> js_get value "error" = Normal error ->
    is_present result && is_present error = false.


(** The [workflowId] of a request is the identifier of a stored
    workflow. *)
Definition resolves (db : DB) (workflowId : JsVal) : Prop :=
  exists row, row ∈ workflows db /\ workflowId = JStr (wf_id row).

(** What the specification asks of a request to execute a workflow that
    is not stored: the 404, with an error message. *)
Definition answers_not_found (outcome : Completion (Response * list Event)) : Prop :=
  exists msg events,
    outcome = Normal ({| http_status := 404; body := ErrorBody msg |}, events).

(** ** Sample data *)

Definition double_quote : string :=
  String (Ascii.Ascii false true false false false true false false) EmptyString.

Definition quoted (s : string) : string := double_quote +:+ s +:+ double_quote.

(** The response text [{"success":false}]. *)
Definition text_failure_without_error : string :=
  "{" +:+ quoted "success" +:+ ":false}".

(** The response text [{"success":true,"result":{"rows":3},"error":"partial"}]. *)
Definition text_result_and_error : string :=
  "{" +:+ quoted "success" +:+ ":true," +:+ quoted "result" +:+ ":{" +:+ quoted "rows"
    +:+ ":3}," +:+ quoted "error" +:+ ":" +:+ quoted "partial" +:+ "}".

(** [JSON.parse] on the two texts above; other texts are not needed by the
    examples and are reported as unparsable. *)
Definition sample_JSON_parse (text : string) : Completion JsVal :=
  if String.eqb text text_failure_without_error then
    Normal (JObj [("success", JBool false)])
  else if String.eqb text text_result_and_error then
    Normal (JObj [("success", JBool true); ("result", JObj [("rows", JNum 3)]);
                  ("error", JStr "partial")])
  else Throw (mkError "Unexpected token in JSON").

Definition stepA : WorkflowStep :=
  {| name := "A"; description := "load the rows"; agentType := data;
     action := "query"; params := JObj [] |}.

Definition stepB : WorkflowStep :=
  {| name := "B"; description := "notify the team"; agentType := communication;
     action := "send"; params := JObj [] |}.

(** A step as the planner may name it. *)
Definition step_proto : WorkflowStep :=
  {| name := "__proto__"; description := "load the rows"; agentType := data;
     action := "query"; params := JObj [] |}.

Definition rows3 : JsVal := JObj [("rows", JNum 3)].
Definition sent : JsVal := JObj [("sent", JBool true)].

(** [{ success: true, result }] *)
Definition success_with (result : JsVal) : JsVal :=
  JObj [("success", JBool true); ("result", result)].

(** A runner whose first call yields [{rows: 3}] and whose later calls
    yield [{sent: true}]. *)
Definition runner_ok (call : nat) (step : WorkflowStep) (context : Context)
  : Completion JsVal :=
  match call with
  | O => Normal (success_with rows3)
  | S _ => Normal (success_with sent)
  end.

(** A runner that reports a timeout. *)
Definition runner_timeout (call : nat) (step : WorkflowStep) (context : Context)
  : Completion JsVal :=
  Normal (JObj [("success", JBool false); ("error", JStr "timeout")]).

(** The generative model answering with a text, or not at all. *)
Definition generate_text (text : string) (call : nat) (step : WorkflowStep)
    (context : Context) : ExecutorOutcome Thrown :=
  Resolved (Some text).

Definition generate_rejection (call : nat) (step : WorkflowStep) (context : Context)
  : ExecutorOutcome Thrown :=
  Rejected (ThrownError (mkError "fetch failed")).



(** Parameter binding as the driver does it, for the TEXT columns the
    code binds request and result values to. [undefined] and [null] are
    bound as NULL and a string as text; a number is bound as a real,
    which a TEXT column holds as its text, [504.0] for [504]; anything
    else is refused. *)
Definition bind_value (value : JsVal) : Completion SqlVal :=
  match value with
  | JUndefined | JNull => Normal SqlNull
  | JStr s => Normal (SqlText s)
  | JNum n => Normal (SqlText (pretty n +:+ ".0"))
  | JBool _ | JArr _ | JObj _ =>
      Throw (mkError "SQLite3 can only bind numbers, strings, bigints, buffers, and null")
  end.

(** An argument that is an array stands for the list of its elements,
    and one that is an object for named parameters: an array of one
    element is bound as that element, and any other array and every
    object leave the placeholder with too many values or too few. *)
Definition sample_sql_bind (value : JsVal) : Completion SqlVal :=
  match value with
  | JArr [] => Throw (mkError "Too few parameter values were provided")
  | JArr [item] => bind_value item
  | JArr _ => Throw (mkError "Too many parameter values were provided")
  | JObj _ => Throw (mkError "Too few parameter values were provided")
  | _ => bind_value value
  end.

(** A number as SQLite renders a real that is integral. *)
Definition sample_number_text (n : Z) : string := pretty n +:+ ".0".

Definition sample_stepIds (i : nat) : Id :=
  match i with
  | 0 => "step-0"
  | 1 => "step-1"
  | _ => "step-n"
  end%nat.

Definition sample_db : DB :=
  {| workflows :=
       [{| wf_id := "w1"; wf_name := "report"; wf_description := "load and notify";
           wf_original_prompt := SqlText "load the rows and notify the team";
           wf_steps_json := [stepA; stepB] |}];
     workflow_executions :=
       [{| ex_id := "e0"; ex_workflow_id := "w1"; ex_status := Completed;
           ex_completed_at := true; ex_error_message := SqlNull |};
        {| ex_id := "e1"; ex_workflow_id := "w1"; ex_status := Failed;
           ex_completed_at := true; ex_error_message := SqlText "timeout" |};
        {| ex_id := "e2"; ex_workflow_id := "w1"; ex_status := Completed;
           ex_completed_at := true; ex_error_message := SqlNull |}];
     execution_steps :=
       [{| st_id := "s0"; st_execution_id := "e1"; st_step_index := 0; st_name := "A";
           st_agent_type := data; st_status := Failed; st_result_json := None;
           st_error_message := SqlText "timeout"; st_started_at := true;
           st_completed_at := true |}] |}.

(** The effects of a run of [stepA; stepB] whose first step times out,
    split at the statement that records the failure. *)
Definition timeout_before : list Event :=
  [Broadcast (execution_update "e3" Running JUndefined);
   Db (InsertExecutionStep "step-0" "e3" 0 "A" data Running);
   Broadcast (step_update "e3" "step-0" Running 0 JUndefined JUndefined);
   Invoke 0 stepA empty_context].

Definition timeout_write : DbWrite :=
  UpdateExecutionStep Failed None (SqlText "timeout") "step-0".

Definition timeout_after : list Event :=
  [Broadcast (step_update "e3" "step-0" Failed 0 JUndefined (JStr "timeout"));
   Db (UpdateExecutionFailed (SqlText "timeout") "e3");
   Broadcast (execution_update "e3" Failed (JStr "timeout"))].

(** The effects of a run of [stepA; stepB] in which both steps succeed,
    up to the statement that completes the execution. *)
Definition success_before : list Event :=
  [Broadcast (execution_update "e3" Running JUndefined);
   Db (InsertExecutionStep "step-0" "e3" 0 "A" data Running);
   Broadcast (step_update "e3" "step-0" Running 0 JUndefined JUndefined);
   Invoke 0 stepA empty_context;
   Db (UpdateExecutionStep Completed (Some rows3) SqlNull "step-0");
   Broadcast (step_update "e3" "step-0" Completed 0 rows3 JUndefined);
   Db (InsertExecutionStep "step-1" "e3" 1 "B" communication Running);
   Broadcast (step_update "e3" "step-1" Running 1 JUndefined JUndefined);
   Invoke 1 stepB (Object_assign empty_context "A" rows3);
   Db (UpdateExecutionStep Completed (Some sent) SqlNull "step-1");
   Broadcast (step_update "e3" "step-1" Completed 1 sent JUndefined)].

Definition success_after : list Event :=
  [Broadcast (execution_update "e3" Completed JUndefined)].

(** Statements of a concurrent execution ["e9"]. *)
Definition other_writes : list DbWrite :=
  [InsertExecution "e9" "w1" Running;
   InsertExecutionStep "other-0" "e9" 0 "A" data Running].

(** ** The planner and the creation of workflows *)

(** [WorkflowPlan], the type [generateWorkflowPlan] declares for its
    result. *)
Record WorkflowPlan : Type := mkPlan {
  plan_name : string;
  plan_description : string;
  plan_steps : list WorkflowStep
}.

Section Planner.

(** The generative model answering the planning request built from
    [prompt]; [call] tells successive requests apart. *)
Variable generatePlanContent : nat -> string -> ExecutorOutcome JsError.

(** [JSON.parse], read at the declared result type. *)
Variable JSON_parse_plan : string -> Completion WorkflowPlan.

(** [generateWorkflowPlan]: the [catch] logs and throws the error again. *)
Definition generateWorkflowPlan (call : nat) (prompt : string)
  : Completion WorkflowPlan :=
  try_catch
    (cbind
       (match generatePlanContent call prompt with
        | Rejected e => Throw e
        | Resolved text => Normal text
        end)
       (fun text =>
          if GeminiService.no_text text
          then Throw (mkError "Empty response from AI")
          else JSON_parse_plan (default EmptyString text)))
    (fun error => Throw error).

End Planner.

Inductive CreateBody : Type :=
| CreatedWorkflow (id : Id) (plan : WorkflowPlan)
    (* { id, ...plan } *)
| CreateError (error : JsVal)
    (* { error }, the [error.message] read in the [catch] *).

Record CreateResponse : Type := mkCreateResponse {
  create_status : nat;
  create_body : CreateBody
}.

Section WorkflowCreation.
Local Open Scope task_scope.

(** The awaited [generateWorkflowPlan(prompt)], for the [prompt] the
    request carries: it resolves to a plan, or rejects with what the
    planner throws again, whatever that is. *)
Variable planner : nat -> JsVal -> Settled Thrown WorkflowPlan.

(** The binding of the database driver, as in the execution handler. *)
Variable sql_bind : JsVal -> Completion SqlVal.

(** The [catch (error: any)] of the handler:
    [res.status(500).json({ error: error.message })]. What the read of
    [error.message] throws leaves the handler, which then gives no
    response itself. *)
Definition create_catch (error : Thrown) : Task CreateResponse :=
  let* error_message := lift (thrown_message error) in
  ret {| create_status := 500; create_body := CreateError error_message |}.

(** [POST /api/workflows/create]. [prompt] is [req.body.prompt], whatever
    the client sent; [id] is the identifier [uuidv4()] returns to this
    request once the plan is there. The INSERT is inside the [try] and
    binds [prompt] unchecked: a refused binding goes to the [catch], with
    no row stored. *)
Definition post_workflows_create (call : nat) (prompt : JsVal) (id : Id)
  : Task CreateResponse :=
  match planner call prompt with
  | Rejected error => create_catch error
  | Resolved plan =>
      task_try
        (let* original_prompt := lift (sql_bind prompt) in
         emit (Db (InsertWorkflow id (plan_name plan) (plan_description plan)
                     original_prompt (plan_steps plan))) ;;;
         ret {| create_status := 200; create_body := CreatedWorkflow id plan |})
        (fun error => create_catch (ThrownError error))
  end.

End WorkflowCreation.

(** ** The listing of executions *)

(** [FROM workflow_executions e JOIN workflows w ON e.workflow_id = w.id],
    selecting [e.*] and [w.name as workflow_name]. *)
Definition join_workflows (db : DB) : list (ExecutionRow * string) :=
  flat_map
    (fun e =>
       map (fun w => (e, wf_name w))
         (filter (fun w => wf_id w = ex_workflow_id e) (workflows db)))
    (workflow_executions db).

Section Listing.

(** [ORDER BY e.started_at DESC]: the instants are not part of the rows
    here, so the ordering is a parameter. *)
Variable order_by_started_at :
  list (ExecutionRow * string) -> list (ExecutionRow * string).

(** [GET /api/executions] *)
Definition get_executions (db : DB) : list (ExecutionRow * string) :=
  order_by_started_at (join_workflows db).

End Listing.

(** ** The notification channel *)

Inductive ReadyState : Type := CONNECTING | OPEN | CLOSING | CLOSED.

#[global] Instance ReadyState_eq_dec : EqDecision ReadyState.
Proof. solve_decision. Defined.

(** A [WebSocket] object, by identity. *)
Definition Socket : Type := nat.

(** The [clients] map: its entries in insertion order, as [forEach]
    visits them. *)
Definition Clients : Type := list (Id * Socket).

(** [clients.set(id, ws)]: a known key keeps its place. *)
Definition clients_set (id : Id) (ws : Socket) (clients : Clients) : Clients :=
  if bool_decide (id ∈ map fst clients)
  then map (fun entry => if bool_decide (fst entry = id) then (id, ws) else entry) clients
  else clients ++ [(id, ws)].

(** [clients.delete(id)] *)
Definition clients_delete (id : Id) (clients : Clients) : Clients :=
  filter (fun entry => fst entry <> id) clients.

(** The messages among the effects, in order. *)
Definition messages_of (events : list Event) : list Message :=
  omap (fun e => match e with Broadcast m => Some m | _ => None end) events.

Section Notifier.

(** The state each socket is in when [broadcast] looks at it. *)
Variable readyState : Socket -> ReadyState.

(** [broadcast(message)]: the sends, in order; the payload is the JSON
    text of the message. *)
Definition broadcast (clients : Clients) (message : Message) : list (Socket * Message) :=
  omap (fun entry =>
          if bool_decide (readyState (snd entry) = OPEN)
          then Some (snd entry, message) else None) clients.

End Notifier.

(** The sends of all the broadcasts among the effects. Sockets change
    state and clients come and go while a task runs: [readyState k] and
    [clients k] are the states and the registry that the [k]-th broadcast
    finds. *)
Definition sends (readyState : nat -> Socket -> ReadyState) (clients : nat -> Clients)
    (events : list Event) : list (Socket * Message) :=
  mjoin (imap (fun k message => broadcast (readyState k) (clients k) message)
           (messages_of events)).

(** What one socket is sent. *)
Definition received (ws : Socket) (deliveries : list (Socket * Message)) : list Message :=
  map snd (filter (fun delivery => fst delivery = ws) deliveries).

(** ** The dashboard's [handleExecute] *)

(** The identifier [handleExecute] asks the detail of: the [executionId]
    destructured from the body of the response, which is [undefined], and
    reads "undefined" in the request path, when the body has none. *)
Definition handleExecute_detail_id (response : Response) : Id :=
  match body response with
  | ExecutionStarted executionId => executionId
  | _ => "undefined"
  end.

(** [fetchExecutionDetails(id)]: the body of the detail, which becomes
    the selected execution. *)
Definition fetchExecutionDetails (db : DB) (id : Id) : Body :=
  body (get_execution db id).

(** [handleExecute(workflowId)], from the response on: the execution it
    selects. [fetch] resolves whatever the status of the response, so the
    detail is asked in every case; [db] is the store as the detail
    request finds it. *)
Definition handleExecute (response : Response) (db : DB) : Body :=
  fetchExecutionDetails db (handleExecute_detail_id response).

(** ** Vocabulary of the further properties *)

(** Every execution is an execution of a stored workflow. *)
Definition executions_reference_workflows (db : DB) : Prop :=
  Forall (fun e => ex_workflow_id e ∈ map wf_id (workflows db)) (workflow_executions db).

(** Whether a statement records an execution as finished, and how. *)
Definition execution_outcome (w : DbWrite) : option (Id * Status) :=
  match w with
  | UpdateExecutionFailed _ id => Some (id, Failed)
  | UpdateExecutionCompleted id => Some (id, Completed)
  | _ => None
  end.

(** The execution a statement creates: identifier, workflow, status. *)
Definition created_execution (w : DbWrite) : option (Id * Id * Status) :=
  match w with
  | InsertExecution id workflow_id status => Some (id, workflow_id, status)
  | _ => None
  end.

(** Whether a statement writes to [workflows]. *)
Definition writes_workflow (w : DbWrite) : bool :=
  match w with
  | InsertWorkflow _ _ _ _ _ => true
  | _ => false
  end.

(** Index, name and agent type: what a step row takes from the plan. *)
Definition row_key (row : StepRow) : nat * string * AgentType :=
  (st_step_index row, st_name row, st_agent_type row).

Definition plan_keys (steps : list WorkflowStep) : list (nat * string * AgentType) :=
  imap (fun i step => (i, name step, agentType step)) steps.

(** The step row a statement creates for an execution, by its key. *)
Definition created_key (executionId : Id) (w : DbWrite)
  : option (nat * string * AgentType) :=
  match w with
  | InsertExecutionStep _ execution_id step_index step_name agent_type _ =>
      if bool_decide (execution_id = executionId)
      then Some (step_index, step_name, agent_type) else None
  | _ => None
  end.

(** The outcome of a step as a statement of the [try] block stores it,
    and as a [step_update] announces it. *)
Definition stored_outcome (w : DbWrite) : option (Id * Status) :=
  match w with
  | UpdateExecutionStep status _ _ id => Some (id, status)
  | _ => None
  end.

Definition announced_outcome (m : Message) : option (Id * Status) :=
  match m with
  | step_update _ stepId status _ _ _ =>
      if is_terminal status then Some (stepId, status) else None
  | _ => None
  end.

(** The step row a statement creates, and the step row a [step_update]
    announces as running, by identifier and index. *)
Definition created_row (w : DbWrite) : option (Id * nat) :=
  match w with
  | InsertExecutionStep id _ step_index _ _ _ => Some (id, step_index)
  | _ => None
  end.

Definition announced_running (m : Message) : option (Id * nat) :=
  match m with
  | step_update _ stepId Running stepIndex _ _ => Some (stepId, stepIndex)
  | _ => None
  end.

(** A statement as the request for [executionId] issues them: on its own
    execution, and on step rows under the identifiers drawn for it. *)
Definition issued_by (executionId : Id) (stepIds : nat -> Id) (w : DbWrite) : Prop :=
  match w with
  | InsertWorkflow _ _ _ _ _ => False
  | InsertExecution id _ _ => id = executionId
  | InsertExecutionStep id execution_id _ _ _ _ =>
      execution_id = executionId /\ exists j, id = stepIds j
  | UpdateExecutionStep _ _ _ id | UpdateExecutionStepFailed _ id => exists j, id = stepIds j
  | UpdateExecutionFailed _ id | UpdateExecutionCompleted id => id = executionId
  end.

(** The rows of the other executions. *)
Definition other_executions (executionId : Id) (db : DB) : list ExecutionRow :=
  filter (fun row => ex_id row <> executionId) (workflow_executions db).

Definition other_steps (executionId : Id) (db : DB) : list StepRow :=
  filter (fun row => st_execution_id row <> executionId) (execution_steps db).

(** The step rows under the identifiers drawn for [executionId] are rows
    of [executionId]. *)
Definition drawn_for (executionId : Id) (stepIds : nat -> Id) (db : DB) : Prop :=
  Forall (fun row => (exists j, st_id row = stepIds j) -> st_execution_id row = executionId)
    (execution_steps db).

(** The calls of the runner, without the contexts. *)
Definition attempts (events : list Event) : list (nat * WorkflowStep) :=
  map (fun call => (fst (fst call), snd (fst call))) (invocations events).

(** ** Further sample data *)

Definition sample_plan : WorkflowPlan :=
  {| plan_name := "report"; plan_description := "load and notify";
     plan_steps := [stepA; stepB] |}.

Definition planner_ok (call : nat) (prompt : JsVal) : Settled Thrown WorkflowPlan :=
  Resolved sample_plan.

Definition planner_down (call : nat) (prompt : JsVal) : Settled Thrown WorkflowPlan :=
  Rejected (ThrownError (mkError "fetch failed")).

(** The model giving no text to the planning request. *)
Definition generate_no_plan (call : nat) (prompt : string) : ExecutorOutcome JsError :=
  Resolved None.

Definition sample_JSON_parse_plan (text : string) : Completion WorkflowPlan :=
  Throw (mkError "Unexpected token in JSON").

Definition sample_clients : Clients := [("c1", 1%nat); ("c2", 2%nat)].

(** Socket 1 is open, the others are closed. *)
Definition sample_readyState (ws : Socket) : ReadyState :=
  match ws with
  | 1%nat => OPEN
  | _ => CLOSED
  end.

(** A runner whose result carries an object as its [error]: the driver
    refuses to bind it, and the [catch] block takes over. *)
Definition runner_object_error (call : nat) (step : WorkflowStep) (context : Context)
  : Completion JsVal :=
  Normal (JObj [("success", JBool false); ("error", JObj [("code", JNum 504)])]).

Definition refusal : string := "Too few parameter values were provided".

(** The effects of a run of [stepA; stepB] whose first result cannot be
    stored, split at the statement of the [catch] block that fails the
    step. *)
Definition fault_before : list Event :=
  [Broadcast (execution_update "e3" Running JUndefined);
   Db (InsertExecutionStep "step-0" "e3" 0 "A" data Running);
   Broadcast (step_update "e3" "step-0" Running 0 JUndefined JUndefined);
   Invoke 0 stepA empty_context].

Definition fault_after : list Event :=
  [Db (UpdateExecutionFailed (SqlText refusal) "e3");
   Broadcast (execution_update "e3" Failed (JStr refusal))].

(** A store whose one execution failed, and a store whose one execution
    completed. *)
Definition db_one (status : Status) : DB :=
  {| workflows := workflows sample_db;
     workflow_executions :=
       [{| ex_id := "e0"; ex_workflow_id := "w1"; ex_status := status;
           ex_completed_at := true; ex_error_message := SqlNull |}];
     execution_steps := [] |}.

(** The store when the request for ["e3"] has been accepted. *)
Definition started_db : DB := db_apply sample_db (InsertExecution "e3" "w1" Running).


(** * Properties *)

(** Splitting a list of effects at a given element. *)
Ltac split_trace :=
  repeat match goal with
    | H : ?b ++ _ :: _ = _ :: _ |- _ => destruct b as [|? b]; simplify_eq/=
    | H : ?b ++ _ :: _ = [] |- _ => destruct b; simplify_eq/=
    | H : _ :: _ = ?b ++ _ :: _ |- _ => destruct b as [|? b]; simplify_eq/=
    | H : [] = ?b ++ _ :: _ |- _ => destruct b; simplify_eq/=
    end.

(** Enumerating the prefixes of an explicit list. *)
Ltac split_prefix :=
  repeat match goal with
    | H : ?p `prefix_of` [] |- _ => apply prefix_nil_inv in H; subst p
    | H : ?p `prefix_of` (_ :: _) |- _ =>
        destruct p as [|? p];
        [ clear H
        | pose proof (prefix_cons_inv_1 _ _ _ _ H); apply prefix_cons_inv_2 in H; subst ]
    end.

Section RunShape.
Variable executeAgentStep : nat -> WorkflowStep -> Context -> Completion JsVal.
Variable sql_bind : JsVal -> Completion SqlVal.

Lemma js_get_twice value k1 k2 v :
  js_get value k1 = Normal v -> exists v', js_get value k2 = Normal v'.
Proof. destruct value; simpl; intros H; try discriminate; eauto. Qed.

Lemma for_loop_Run executionId stepIds steps :
  forall i context,
    Run executionId stepIds i steps context
      (for_loop executeAgentStep sql_bind executionId stepIds i steps context).
Proof.
  induction steps as [|step rest IH]; intros i context; simpl.
  - constructor.
  - unfold iteration, try_block, catch_block.
    destruct (executeAgentStep i step context) as [result|fault]; simpl.
    2: { apply Run_step_faulted. }
    destruct (js_get result "success") as [success|fault] eqn:Hs; simpl.
    2: { apply Run_step_faulted. }
    destruct (js_get_twice _ _ "result" _ Hs) as [r ->].
    destruct (js_get_twice _ _ "error" _ Hs) as [e ->]. simpl.
    destruct (sql_bind e) as [em|fault]; simpl.
    2: { apply Run_step_faulted. }
    destruct (truthy success); simpl.
    + apply Run_step_completed, IH.
    + apply Run_step_failed.
Qed.
End RunShape.

Section Halting.
Variable executeAgentStep : nat -> WorkflowStep -> Context -> Completion JsVal.
Variable sql_bind : JsVal -> Completion SqlVal.

(** A recorded step failure directly follows the creation of the row it
    fails, and only the failure of the execution follows it. *)
Lemma Run_failure executionId stepIds i steps context events :
  Run executionId stepIds i steps context events ->
  forall before w after stepId msg,
    events = before ++ Db w :: after ->
    step_failure w = Some (stepId, msg) ->
    exists k step earlier,
      steps !! k = Some step /\
      stepId = stepIds (i + k)%nat /\
      created_indices (writes_of before) = seq i (S k) /\
      writes_of before
      = earlier ++ [InsertExecutionStep stepId executionId (i + k)%nat
                      (name step) (agentType step) Running] /\
      writes_of after = [UpdateExecutionFailed msg executionId] /\
      invocations after = [].
Proof.
  induction 1 as [i context|i step rest context result error em tail Htail IH
                 |i step rest context result error em|i step rest context fault];
    intros before w after stepId msg Heq Hfail; split_trace.
  - destruct (IH _ _ _ _ _ eq_refl Hfail)
      as (k & s & earlier & Hs & -> & Hidx & Hlast & Hafter & Hinv).
    exists (S k), s,
      (InsertExecutionStep (stepIds i) executionId i (name step) (agentType step) Running
         :: UpdateExecutionStep Completed (JSON_stringify result) em (stepIds i)
         :: earlier).
    rewrite <- !plus_n_Sm. split_and!; try done.
    + unfold created_indices in *. simpl. by rewrite Hidx.
    + simpl. by rewrite Hlast.
  - exists 0%nat, step, []. rewrite Nat.add_0_r. by split_and!.
  - exists 0%nat, step, []. rewrite Nat.add_0_r. by split_and!.
Qed.

Lemma db_after_app db ws1 ws2 :
  db_after db (ws1 ++ ws2) = db_after (db_after db ws1) ws2.
Proof. apply foldl_app. Qed.

Lemma writes_of_app events1 events2 :
  writes_of (events1 ++ events2) = writes_of events1 ++ writes_of events2.
Proof. apply omap_app. Qed.

(** What the store holds once a step row was created, recorded as failed,
    and the execution was recorded as failed in turn. *)
Lemma failure_persisted db stepId executionId i step_name agent_type w msg :
  step_failure w = Some (stepId, msg) ->
  let final :=
    db_after db
      [InsertExecutionStep stepId executionId i step_name agent_type Running; w;
       UpdateExecutionFailed msg executionId] in
  (exists row, row ∈ execution_steps final /\ st_id row = stepId /\
               st_execution_id row = executionId /\ st_step_index row = i) /\
  (forall row, row ∈ execution_steps final -> st_id row = stepId ->
               st_status row = Failed /\ st_error_message row = msg) /\
  (forall row, row ∈ workflow_executions final -> ex_id row = executionId ->
               ex_status row = Failed /\ ex_error_message row = msg /\
               ex_completed_at row = true).
Proof.
  intros Hfail. unfold db_after. cbn [foldl].
  destruct w as [| | |[] rj em id|em id| |]; simplify_eq/=.
  all: split_and!.
  all: try (intros row Hrow Hid; unfold update_where in Hrow;
            apply list_elem_of_fmap in Hrow as (row' & -> & Hrow');
            case_bool_decide; [done|]; simpl in *; congruence).
  all: eexists; (split; [apply list_elem_of_fmap; eexists; split; [reflexivity|];
                         apply elem_of_app; right; apply list_elem_of_singleton;
                         reflexivity|]);
       simpl; by rewrite bool_decide_eq_true_2.
Qed.

(** A failed call of the runner is recorded on the row of its step. *)
Lemma failure_recorded executionId stepIds steps : forall i context k step c,
  (k, step, c) ∈ invocations
     (for_loop executeAgentStep sql_bind executionId stepIds i steps context) ->
  runner_failed (executeAgentStep k step c) = true ->
  exists before w after msg,
    for_loop executeAgentStep sql_bind executionId stepIds i steps context
    = before ++ Db w :: after /\
    step_failure w = Some (stepIds k, msg).
Proof.
  induction steps as [|s rest IH]; intros i context k step c; simpl.
  { intros Hin. by apply elem_of_nil in Hin. }
  unfold iteration, try_block, catch_block, runner_failed.
  destruct (executeAgentStep i s context) as [result|fault] eqn:Hcall; simpl.
  2: { intros Hin _. apply list_elem_of_singleton in Hin. simplify_eq.
       by eexists [_; _; _], _, _, _. }
  destruct (js_get result "success") as [success|fault] eqn:Hs; simpl.
  2: { intros Hin _. apply list_elem_of_singleton in Hin. simplify_eq.
       by eexists [_; _; _], _, _, _. }
  destruct (js_get_twice _ _ "result" _ Hs) as [r ->].
  destruct (js_get_twice _ _ "error" _ Hs) as [e ->]. simpl.
  destruct (sql_bind e) as [em|fault]; simpl.
  2: { intros Hin _. apply list_elem_of_singleton in Hin. simplify_eq.
       by eexists [_; _; _], _, _, _. }
  destruct (truthy success) eqn:Htruthy; simpl.
  - intros Hin Hfailed. apply elem_of_cons in Hin as [Hhead|Hin].
    + simplify_eq. by rewrite Hcall, Hs, Htruthy in Hfailed.
    + destruct (IH _ _ _ _ _ Hin Hfailed) as (before & w & after & msg & -> & Hw).
      by eexists (_ :: _ :: _ :: _ :: _ :: before), w, after, msg.
  - intros Hin _. apply list_elem_of_singleton in Hin. simplify_eq.
    by eexists [_; _; _], _, _, _.
Qed.

(** C1 (fail-fast halt). When a call of the runner for the step at index
    [i] fails, by a result whose [success] is falsy or by a thrown fault,
    a statement of the background task records that step as failed.
    Whenever a statement records a step as failed with an error message,
    that step is the one created last, at some index [i]: rows were
    created for the indices [0..i] and no other, no step row is created
    and the runner is not called after it, and the one statement still to
    run records the execution as failed with the same message. In the
    store the row of step [i] then holds status failed with that message,
    and so does the execution, with its completion time set. *)
Theorem C1_fail_fast_halt executionId stepIds steps :
  let events := background_task executeAgentStep sql_bind executionId stepIds steps in
  (forall i step context,
      (i, step, context) ∈ invocations events ->
      runner_failed (executeAgentStep i step context) = true ->
      exists before w after msg,
        events = before ++ Db w :: after /\ step_failure w = Some (stepIds i, msg)) /\
  (forall before w after stepId msg,
      events = before ++ Db w :: after ->
      step_failure w = Some (stepId, msg) ->
      exists i step,
        steps !! i = Some step /\
        stepId = stepIds i /\
        created_indices (writes_of before) = seq 0 (S i) /\
        created_indices (writes_of after) = [] /\
        invocations after = [] /\
        writes_of after = [UpdateExecutionFailed msg executionId] /\
        forall db,
          let final := db_after db (writes_of events) in
          (exists row, row ∈ execution_steps final /\ st_id row = stepId /\
                       st_execution_id row = executionId /\ st_step_index row = i) /\
          (forall row, row ∈ execution_steps final -> st_id row = stepId ->
                       st_status row = Failed /\ st_error_message row = msg) /\
          (forall row, row ∈ workflow_executions final -> ex_id row = executionId ->
                       ex_status row = Failed /\ ex_error_message row = msg /\
                       ex_completed_at row = true)).
Proof.
  simpl. unfold background_task. split.
  - simpl. intros i step context Hin Hfailed.
    destruct (failure_recorded _ _ _ _ _ _ _ _ Hin Hfailed)
      as (before & w & after & msg & -> & Hw).
    by eexists (_ :: before), w, after, msg.
  - intros before w after stepId msg Heq Hfail.
    destruct before as [|e before]; [discriminate|].
    injection Heq as <- Heq.
    destruct (Run_failure _ _ _ _ _ _
                (for_loop_Run executeAgentStep sql_bind executionId stepIds steps 0
                   empty_context)
                _ _ _ _ _ Heq Hfail)
      as (k & step & earlier & Hstep & -> & Hidx & Hlast & Hafter & Hinv).
    exists k, step. simpl in *. split_and!; try done.
    + by rewrite Hafter.
    + intros db. rewrite Heq, writes_of_app. simpl.
      rewrite Hlast, Hafter, <- app_assoc. simpl.
      rewrite db_after_app. by apply failure_persisted.
Qed.
End Halting.

Section ContextPropagation.
Variable executeAgentStep : nat -> WorkflowStep -> Context -> Completion JsVal.
Variable sql_bind : JsVal -> Completion SqlVal.
Variable executionId : Id.
Variable stepIds : nat -> Id.

Lemma Object_assign_lookup context key value :
  key <> "__proto__" ->
  own (Object_assign context key value) !! key = Some value.
Proof.
  intros Hkey. unfold Object_assign.
  rewrite (bool_decide_eq_false_2 _ Hkey). simpl. apply lookup_insert_eq.
Qed.

Lemma Object_assign_lookup_ne context key value key' :
  key <> key' ->
  own (Object_assign context key value) !! key' = own context !! key'.
Proof.
  intros Hne. unfold Object_assign.
  destruct (_ && _); [by destruct (is_object_or_null value)|].
  simpl. by apply lookup_insert_ne.
Qed.

Lemma Run_invocations_ge i steps context events :
  Run executionId stepIds i steps context events ->
  forall k step c, (k, step, c) ∈ invocations events -> (i <= k)%nat.
Proof.
  induction 1 as [i context|i step rest context result error em tail Htail IH
                 |i step rest context result error em|i step rest context fault];
    intros k s c Hin; simpl in Hin.
  - by apply elem_of_nil in Hin.
  - apply elem_of_cons in Hin as [?|Hin]; simplify_eq; [lia|].
    apply IH in Hin. lia.
  - apply list_elem_of_singleton in Hin. simplify_eq. lia.
  - apply list_elem_of_singleton in Hin. simplify_eq. lia.
Qed.

Lemma Run_completions_ge i steps context events :
  Run executionId stepIds i steps context events ->
  forall j r, (j, r) ∈ completions events -> (i <= j)%nat.
Proof.
  induction 1 as [i context|i step rest context result error em tail Htail IH
                 |i step rest context result error em|i step rest context fault];
    intros j r Hin; simpl in Hin; try (by apply elem_of_nil in Hin).
  apply elem_of_cons in Hin as [?|Hin]; simplify_eq; [lia|].
  apply IH in Hin. lia.
Qed.

Lemma drop_cons_inv (plan : list WorkflowStep) i step rest :
  step :: rest = drop i plan ->
  plan !! i = Some step /\ rest = drop (S i) plan.
Proof.
  intros Hplan.
  assert (plan !! i = Some step) as Hi.
  { rewrite <- (Nat.add_0_r i), <- lookup_drop, <- Hplan. done. }
  split; [done|].
  rewrite (drop_S _ _ _ Hi) in Hplan. by simplify_eq.
Qed.

(** A name no step in between carries keeps its entry. *)
Lemma Run_context_unchanged (plan : list WorkflowStep) (N : string) i steps context events :
  Run executionId stepIds i steps context events ->
  steps = drop i plan ->
  forall k step c,
    (k, step, c) ∈ invocations events ->
    (forall j s, (i <= j < k)%nat -> plan !! j = Some s -> name s <> N) ->
    own c !! N = own context !! N.
Proof.
  induction 1 as [i context|i step rest context result error em tail Htail IH
                 |i step rest context result error em|i step rest context fault];
    intros Hplan k s c Hin Hother; simpl in Hin.
  - by apply elem_of_nil in Hin.
  - apply elem_of_cons in Hin as [?|Hin]; simplify_eq; [done|].
    pose proof (Run_invocations_ge _ _ _ _ Htail _ _ _ Hin) as Hk.
    apply drop_cons_inv in Hplan as [Hi Hrest].
    rewrite (IH Hrest _ _ _ Hin).
    + apply Object_assign_lookup_ne. apply (Hother i); [lia|done].
    + intros j sj Hj. apply Hother. lia.
  - apply list_elem_of_singleton in Hin. by simplify_eq.
  - apply list_elem_of_singleton in Hin. by simplify_eq.
Qed.

(** The entry of a name is the result of the last completed step that
    carries it. *)
Lemma Run_context_entry (plan : list WorkflowStep) (N : string) i steps context events :
  N <> "__proto__" ->
  Run executionId stepIds i steps context events ->
  steps = drop i plan ->
  forall k step c j s R,
    (k, step, c) ∈ invocations events ->
    (j, R) ∈ completions events ->
    (j < k)%nat -> plan !! j = Some s -> name s = N ->
    (forall j' s', (j < j' < k)%nat -> plan !! j' = Some s' -> name s' <> N) ->
    own c !! N = Some R.
Proof.
  intros HN.
  induction 1 as [i context|i step rest context result error em tail Htail IH
                 |i step rest context result error em|i step rest context fault];
    intros Hplan k s c j sj R Hin Hdone Hjk Hj Hname Hlater; simpl in Hin, Hdone;
    try (by apply elem_of_nil in Hdone).
  apply drop_cons_inv in Hplan as [Hi ->].
  apply elem_of_cons in Hin as [?|Hin]; simplify_eq.
  - apply elem_of_cons in Hdone as [?|Hdone]; simplify_eq; [lia|].
    apply (Run_completions_ge _ _ _ _ Htail) in Hdone. lia.
  - apply elem_of_cons in Hdone as [?|Hdone]; simplify_eq.
    + rewrite (Run_context_unchanged plan _ _ _ _ _ Htail eq_refl _ _ _ Hin).
      * by apply Object_assign_lookup.
      * intros j' s' Hj'. apply Hlater. lia.
    + by apply (IH eq_refl _ _ _ _ _ _ Hin Hdone Hjk Hj).
Qed.

(** Context propagation for every step name but [__proto__]: the
    context handed to step [k] holds, under the name of an earlier
    completed step, the result of the last completed step of that name;
    in particular the context of step [j + 1] holds the result of step
    [j] under its name. *)
Theorem context_propagation steps k step c j s R :
  let events := background_task executeAgentStep sql_bind executionId stepIds steps in
  (k, step, c) ∈ invocations events ->
  (j, R) ∈ completions events ->
  (j < k)%nat -> steps !! j = Some s -> name s <> "__proto__" ->
  (forall j' s', (j < j' < k)%nat -> steps !! j' = Some s' -> name s' <> name s) ->
  own c !! name s = Some R.
Proof.
  simpl. unfold background_task. simpl. intros Hin Hdone Hjk Hj HN Hlater.
  by apply (Run_context_entry steps (name s) 0 steps empty_context _ HN
           (for_loop_Run executeAgentStep sql_bind executionId stepIds steps 0 empty_context)
           eq_refl k step c j s R).
Qed.
End ContextPropagation.

(** C2 (context propagation), at a plan whose first step is named
    [__proto__]: the step completes with the result [{rows: 3}], and the
    context handed to the next step has no entry under that name; the
    result became the prototype of the context instead. *)
Theorem C2_proto_named_step_not_propagated :
  let events :=
    background_task runner_ok sample_sql_bind "e3" sample_stepIds [step_proto; stepB] in
  completions events = [(0%nat, rows3); (1%nat, sent)] /\
  invocations events
  = [(0%nat, step_proto, empty_context);
     (1%nat, stepB, {| own := ∅; proto := Some rows3 |})] /\
  own {| own := ∅; proto := Some rows3 |} !! name step_proto = None.
Proof. by vm_compute. Qed.

Section Completion.
Variable executeAgentStep : nat -> WorkflowStep -> Context -> Completion JsVal.
Variable sql_bind : JsVal -> Completion SqlVal.

Lemma Run_completion executionId stepIds i steps context events :
  Run executionId stepIds i steps context events ->
  forall before id after,
    events = before ++ Db (UpdateExecutionCompleted id) :: after ->
    id = executionId /\
    writes_of after = [] /\
    omap step_completion (writes_of before) = map stepIds (seq i (length steps)) /\
    Forall (fun w => step_failure w = None) (writes_of before) /\
    Forall (fun w => writes_execution w = false) (writes_of before).
Proof.
  induction 1 as [i context|i step rest context result error em tail Htail IH
                 |i step rest context result error em|i step rest context fault];
    intros before id after Heq; split_trace.
  - by split_and!.
  - destruct (IH _ _ _ eq_refl) as (-> & Hafter & Hdone & Hnofail & Hsteps).
    split_and!; try done.
    + by rewrite Hdone.
    + by repeat constructor.
    + by repeat constructor.
Qed.

Lemma Run_no_failure executionId stepIds i steps context events :
  Run executionId stepIds i steps context events ->
  Forall (fun w => step_failure w = None) (writes_of events) ->
  exists before,
    events = before ++ [Db (UpdateExecutionCompleted executionId);
                        Broadcast (execution_update executionId Completed JUndefined)].
Proof.
  induction 1 as [i context|i step rest context result error em tail Htail IH
                 |i step rest context result error em|i step rest context fault];
    simpl; intros Hnofail.
  - by exists [].
  - apply Forall_cons_1 in Hnofail as [_ Hnofail].
    apply Forall_cons_1 in Hnofail as [_ Hnofail].
    destruct (IH Hnofail) as [before ->].
    by eexists (_ :: _ :: _ :: _ :: _ :: before).
  - apply Forall_cons_1 in Hnofail as [_ Hnofail].
    by apply Forall_cons_1 in Hnofail as [? _].
  - apply Forall_cons_1 in Hnofail as [_ Hnofail].
    by apply Forall_cons_1 in Hnofail as [? _].
Qed.

(** When every call of the runner succeeds, the loop runs to its end. *)
Lemma all_succeed_completes executionId stepIds steps : forall i context,
  (forall k step c,
      (k, step, c) ∈ invocations
         (for_loop executeAgentStep sql_bind executionId stepIds i steps context) ->
      runner_succeeded sql_bind (executeAgentStep k step c) = true) ->
  exists before,
    for_loop executeAgentStep sql_bind executionId stepIds i steps context
    = before ++ [Db (UpdateExecutionCompleted executionId);
                 Broadcast (execution_update executionId Completed JUndefined)].
Proof.
  induction steps as [|s rest IH]; intros i context; simpl.
  { intros _. by exists []. }
  unfold iteration, try_block, catch_block.
  destruct (executeAgentStep i s context) as [result|fault] eqn:Hcall; simpl.
  2: { intros Hall. specialize (Hall i s context (list_elem_of_here _ _)).
       by rewrite Hcall in Hall. }
  destruct (js_get result "success") as [success|fault] eqn:Hs; simpl.
  2: { intros Hall. specialize (Hall i s context (list_elem_of_here _ _)).
       unfold runner_succeeded in Hall. by rewrite Hcall, Hs in Hall. }
  destruct (js_get_twice _ _ "result" _ Hs) as [r ->].
  destruct (js_get_twice _ _ "error" _ Hs) as [e He]. rewrite He. simpl.
  destruct (sql_bind e) as [em|fault] eqn:Hbind; simpl.
  2: { intros Hall. specialize (Hall i s context (list_elem_of_here _ _)).
       unfold runner_succeeded in Hall. rewrite Hcall, Hs, He, Hbind in Hall.
       by rewrite andb_false_r in Hall. }
  destruct (truthy success) eqn:Htruthy; simpl.
  - intros Hall. destruct (IH (S i) (Object_assign context (name s) r)) as [before ->].
    { intros k step c Hin. apply Hall. by apply list_elem_of_further. }
    by eexists (_ :: _ :: _ :: _ :: _ :: before).
  - intros Hall. specialize (Hall i s context (list_elem_of_here _ _)).
    unfold runner_succeeded in Hall. by rewrite Hcall, Hs, He, Htruthy in Hall.
Qed.

Lemma executions_untouched ws : forall db,
  Forall (fun w => writes_execution w = false) ws ->
  workflow_executions (db_after db ws) = workflow_executions db.
Proof.
  unfold db_after.
  induction ws as [|w ws IH]; intros db Hws; [done|].
  apply Forall_cons_1 in Hws as [Hw Hws]. simpl.
  rewrite IH by done. by destruct w.
Qed.

Lemma completion_persisted db executionId row :
  row ∈ workflow_executions (db_apply db (UpdateExecutionCompleted executionId)) ->
  ex_id row = executionId ->
  ex_status row = Completed /\ ex_completed_at row = true.
Proof.
  simpl. unfold update_where. intros Hrow Hid.
  apply list_elem_of_fmap in Hrow as (row' & -> & Hrow').
  case_bool_decide; [done|]. simpl in *. congruence.
Qed.

(** C3 (all-success completion). The statement that records the
    execution as completed is the last statement of the task: before it
    come, in index order, the completed updates of all the steps of the
    plan, and no failure; every state of the store before it leaves
    [workflow_executions] as it was, and after it the execution holds
    status completed with its completion time set. And when every call of
    the runner succeeds, or just no step is recorded as failed, the task
    ends by recording the execution as completed and broadcasting it. *)
Theorem C3_completed_after_last_step executionId stepIds steps :
  let events := background_task executeAgentStep sql_bind executionId stepIds steps in
  (forall before id after,
      events = before ++ Db (UpdateExecutionCompleted id) :: after ->
      id = executionId /\
      writes_of after = [] /\
      omap step_completion (writes_of before) = map stepIds (seq 0 (length steps)) /\
      Forall (fun w => step_failure w = None) (writes_of before) /\
      forall db,
        (forall ws, ws `prefix_of` writes_of before ->
                    workflow_executions (db_after db ws) = workflow_executions db) /\
        (forall row, row ∈ workflow_executions (db_after db (writes_of events)) ->
                     ex_id row = executionId ->
                     ex_status row = Completed /\ ex_completed_at row = true)) /\
  (Forall (fun w => step_failure w = None) (writes_of events) ->
   exists before,
     events = before ++ [Db (UpdateExecutionCompleted executionId);
                         Broadcast (execution_update executionId Completed JUndefined)]) /\
  ((forall i step context,
       (i, step, context) ∈ invocations events ->
       runner_succeeded sql_bind (executeAgentStep i step context) = true) ->
   exists before,
     events = before ++ [Db (UpdateExecutionCompleted executionId);
                         Broadcast (execution_update executionId Completed JUndefined)]).
Proof.
  pose proof (for_loop_Run executeAgentStep sql_bind executionId stepIds steps 0 empty_context)
    as Hrun.
  simpl. unfold background_task. split_and!.
  - intros before id after Heq.
    destruct before as [|e before]; [discriminate|].
    injection Heq as <- Heq. simpl.
    destruct (Run_completion _ _ _ _ _ _ Hrun _ _ _ Heq)
      as (-> & Hafter & Hdone & Hnofail & Hsteps).
    split_and!; try done. intros db. split.
    + intros ws [rest Hws]. apply executions_untouched.
      rewrite Hws in Hsteps. by apply Forall_app in Hsteps as [? _].
    + intros row. rewrite Heq, writes_of_app. simpl. rewrite Hafter, db_after_app.
      apply completion_persisted.
  - simpl. intros Hnofail.
    destruct (Run_no_failure _ _ _ _ _ _ Hrun Hnofail) as [before ->].
    by eexists (_ :: before).
  - simpl. intros Hall.
    destruct (all_succeed_completes executionId stepIds steps 0 empty_context Hall)
      as [before ->].
    by eexists (_ :: before).
Qed.
End Completion.

Section Store.

Lemma filter_update_where {Row} (P : Row -> Prop) `{!forall r, Decision (P r)}
    (matches : Row -> bool) (set : Row -> Row) (rows : list Row) :
  (forall r, P (set r) <-> P r) ->
  filter P (update_where matches set rows) = update_where matches set (filter P rows).
Proof.
  intros Hset. unfold update_where.
  induction rows as [|r rows IH]; [done|]. simpl.
  destruct (matches r) eqn:Hm.
  - rewrite !filter_cons. destruct (decide (P r)) as [Hr|Hr].
    + rewrite decide_True by by apply Hset. simpl. by rewrite Hm, IH.
    + rewrite decide_False by by rewrite Hset. done.
  - rewrite !filter_cons. destruct (decide (P r)); [|done].
    simpl. by rewrite Hm, IH.
Qed.

Lemma filter_id {A} (P : A -> Prop) `{!forall x, Decision (P x)} (l : list A) :
  Forall P l -> filter P l = l.
Proof.
  induction 1 as [|x l Hx _ IH]; [done|].
  by rewrite filter_cons, decide_True, IH.
Qed.

(** [steps_of] commutes with every statement. *)
Lemma steps_of_apply executionId db w :
  steps_of executionId (db_apply db w)
  = steps_apply executionId (steps_of executionId db) w.
Proof.
  unfold steps_apply, steps_of.
  destruct w; simpl; try (by rewrite list_filter_filter_l).
  - rewrite !filter_app. simpl. by rewrite list_filter_filter_l.
  - rewrite !filter_update_where by done. by rewrite list_filter_filter_l.
  - rewrite !filter_update_where by done. by rewrite list_filter_filter_l.
Qed.

Lemma steps_of_after executionId ws : forall db,
  steps_of executionId (db_after db ws)
  = foldl (steps_apply executionId) (steps_of executionId db) ws.
Proof.
  unfold db_after.
  induction ws as [|w ws IH]; intros db; [done|].
  simpl. by rewrite IH, steps_of_apply.
Qed.
End Store.

Section Sequential.
Variable executionId : Id.
Variable stepIds : nat -> Id.

Lemma terminal_not_running (rows : list StepRow) :
  Forall (fun row => is_terminal (st_status row) = true) rows ->
  filter (fun row => st_status row = Running) rows = [].
Proof.
  induction 1 as [|row rows Hrow _ IH]; [done|].
  rewrite filter_cons, decide_False; [done|].
  intros Hr. by rewrite Hr in Hrow.
Qed.

Lemma settled_observed i n rows :
  (i <= n)%nat -> settled executionId stepIds i rows ->
  observed executionId stepIds n rows.
Proof.
  intros Hle (Hown & Hids & Hidx & Hterm).
  unfold observed, sequential. split_and!; try done.
  - eauto.
  - intros init last ->. by apply Forall_app in Hterm as [? _].
  - rewrite terminal_not_running by done. simpl. lia.
Qed.

Lemma settled_snoc_observed i n rows row :
  (i < n)%nat -> settled executionId stepIds i rows ->
  st_execution_id row = executionId -> st_id row = stepIds i -> st_step_index row = i ->
  observed executionId stepIds n (rows ++ [row]).
Proof.
  intros Hlt (Hown & Hids & Hidx & Hterm) Hrow_own Hrow_id Hrow.
  unfold observed, sequential. split_and!.
  - apply Forall_app. split; [done|]. by constructor.
  - apply Forall_app. split; [done|]. constructor; [eauto|done].
  - exists (S i). split; [lia|].
    by rewrite map_app, Hidx, seq_S; simpl; rewrite Hrow.
  - intros init last Heq. by apply app_inj_tail in Heq as [<- _].
  - rewrite filter_app, terminal_not_running by done. simpl.
    rewrite filter_cons. case_decide; simpl; rewrite ?filter_nil; simpl; lia.
Qed.

Lemma steps_apply_insert i rows step_name agent_type status :
  settled executionId stepIds i rows ->
  steps_apply executionId rows
    (InsertExecutionStep (stepIds i) executionId i step_name agent_type status)
  = rows ++ [{| st_id := stepIds i; st_execution_id := executionId; st_step_index := i;
                st_name := step_name; st_agent_type := agent_type; st_status := status;
                st_result_json := None; st_error_message := SqlNull;
                st_started_at := true; st_completed_at := false |}].
Proof.
  intros (Hown & _). unfold steps_apply, steps_of. simpl.
  rewrite filter_app, filter_id by done.
  by rewrite filter_cons, decide_True.
Qed.

(** Statements on [workflow_executions] and [workflows] leave the step
    rows alone. *)
Lemma steps_apply_execution rows w :
  Forall (fun row => st_execution_id row = executionId) rows ->
  created_index w = None -> step_failure w = None ->
  (forall status rj em id, w <> UpdateExecutionStep status rj em id) ->
  steps_apply executionId rows w = rows.
Proof.
  intros Hown Hc Hf Hu. unfold steps_apply, steps_of.
  destruct w; simplify_eq/=; try by apply filter_id.
  by destruct (Hu status result_json error_message id).
Qed.

(** Recording the outcome of iteration [i] settles its row. *)
Lemma steps_apply_update i rows row w status :
  settled executionId stepIds i rows ->
  st_execution_id row = executionId -> st_step_index row = i -> st_id row = stepIds i ->
  is_terminal status = true ->
  (exists rj em, w = UpdateExecutionStep status rj em (stepIds i)) \/
  (status = Failed /\ exists em, w = UpdateExecutionStepFailed em (stepIds i)) ->
  settled executionId stepIds (S i) (steps_apply executionId (rows ++ [row]) w).
Proof.
  intros (Hown & Hids & Hidx & Hterm) Hrow_own Hrow_idx Hrow_id Hstatus Hw.
  assert (Hown' : Forall (fun r => st_execution_id r = executionId) (rows ++ [row])).
  { apply Forall_app. split; [done|]. by constructor. }
  assert (Hids' : Forall (fun r => exists j, st_id r = stepIds j) (rows ++ [row])).
  { apply Forall_app. split; [done|]. constructor; [eauto|done]. }
  assert (Hidx' : map st_step_index (rows ++ [row]) = seq 0 (S i)).
  { by rewrite map_app, Hidx, seq_S; simpl; rewrite Hrow_idx. }
  assert (Hterm' : Forall (fun r => is_terminal (st_status r) = true
                                    \/ st_id r = stepIds i) (rows ++ [row])).
  { apply Forall_app. split.
    - eapply Forall_impl; [exact Hterm|]. intros r Hr. by left.
    - constructor; [|done]. by right. }
  clear Hown Hids Hidx Hterm Hrow_own Hrow_idx Hrow_id.
  unfold steps_apply, steps_of, settled.
  destruct Hw as [(rj & em & ->)|(-> & em & ->)];
    cbn [db_apply execution_steps];
    (rewrite filter_update_where by done);
    rewrite filter_id by done; unfold update_where;
    (split_and!;
     [ apply Forall_map; eapply Forall_impl; [exact Hown'|];
       intros r Hr; simpl; by case_bool_decide
     | apply Forall_map; eapply Forall_impl; [exact Hids'|];
       intros r Hr; simpl; by case_bool_decide
     | rewrite <- Hidx', map_map; apply map_ext; intros r; by case_bool_decide
     | apply Forall_map; eapply Forall_impl; [exact Hterm'|];
       intros r [Hr|Hr]; simpl; case_bool_decide; done ]).
Qed.

(** A statement of another task leaves the step rows of this execution
    as they are. *)
Lemma steps_apply_foreign rows w :
  Forall (fun row => st_execution_id row = executionId) rows ->
  Forall (fun row => exists j, st_id row = stepIds j) rows ->
  foreign executionId stepIds w ->
  steps_apply executionId rows w = rows.
Proof.
  intros Hown Hids Hw. unfold steps_apply, steps_of.
  assert (forall id set, (forall j, id <> stepIds j) ->
            update_where (fun row => bool_decide (st_id row = id)) set rows = rows) as Hmiss.
  { intros id set Hid. unfold update_where.
    rewrite <- (map_id rows) at 2. apply map_ext_Forall.
    eapply Forall_impl; [exact Hids|]. intros row (j & Hj). simpl.
    rewrite bool_decide_eq_false_2; [done|]. rewrite Hj. intros Heq. by apply (Hid j). }
  destruct w; simpl in *; try by apply filter_id.
  - rewrite filter_app, filter_id by done.
    rewrite filter_cons, decide_False by done. by rewrite filter_nil, app_nil_r.
  - rewrite Hmiss by done. by apply filter_id.
  - rewrite Hmiss by done. by apply filter_id.
Qed.
End Sequential.

Section SequentialRun.
Variable executeAgentStep : nat -> WorkflowStep -> Context -> Completion JsVal.
Variable sql_bind : JsVal -> Completion SqlVal.
Variable executionId : Id.
Variable stepIds : nat -> Id.

Lemma Run_observed i steps context events :
  Run executionId stepIds i steps context events ->
  forall rows ws,
    settled executionId stepIds i rows ->
    ws `prefix_of` writes_of events ->
    observed executionId stepIds (i + length steps)
      (foldl (steps_apply executionId) rows ws).
Proof.
  induction 1 as [i context|i step rest context result error em tail Htail IH
                 |i step rest context result error em|i step rest context fault];
    intros rows ws Hrows Hws; simpl in Hws.
  - split_prefix; simpl.
    + eapply settled_observed; [|done]. lia.
    + rewrite steps_apply_execution; try done; [|by destruct Hrows].
      eapply settled_observed; [|done]. lia.
  - split_prefix; simpl.
    + eapply settled_observed; [|done]. lia.
    + rewrite (steps_apply_insert _ _ i) by done.
      eapply settled_snoc_observed; [|done..]. simpl. lia.
    + rewrite (steps_apply_insert _ _ i) by done.
      rewrite <- Nat.add_succ_comm. apply IH; [|done].
      eapply (steps_apply_update executionId stepIds i rows _ _ Completed);
        [done..|left; eauto].
  - split_prefix; simpl; rewrite ?(steps_apply_insert _ _ i) by done.
    + eapply settled_observed; [|done]. lia.
    + eapply settled_snoc_observed; [|done..]. simpl. lia.
    + eapply (settled_observed executionId stepIds (S i)); [simpl; lia|].
      eapply (steps_apply_update executionId stepIds i rows _ _ Failed);
        [done..|left; eauto].
    + assert (settled executionId stepIds (S i)
                (steps_apply executionId
                   (rows ++ [{| st_id := stepIds i; st_execution_id := executionId;
                                st_step_index := i; st_name := name step;
                                st_agent_type := agentType step; st_status := Running;
                                st_result_json := None; st_error_message := SqlNull;
                                st_started_at := true; st_completed_at := false |}])
                   (UpdateExecutionStep Failed (JSON_stringify result) em (stepIds i))))
        as Hsettled.
      { eapply (steps_apply_update executionId stepIds i rows _ _ Failed);
          [done..|left; eauto]. }
      rewrite steps_apply_execution; try done; [|by destruct Hsettled].
      eapply (settled_observed executionId stepIds (S i)); [simpl; lia|done].
  - split_prefix; simpl; rewrite ?(steps_apply_insert _ _ i) by done.
    + eapply settled_observed; [|done]. lia.
    + eapply settled_snoc_observed; [|done..]. simpl. lia.
    + eapply (settled_observed executionId stepIds (S i)); [simpl; lia|].
      eapply (steps_apply_update executionId stepIds i rows _ _ Failed);
        [done..|right; eauto].
    + assert (settled executionId stepIds (S i)
                (steps_apply executionId
                   (rows ++ [{| st_id := stepIds i; st_execution_id := executionId;
                                st_step_index := i; st_name := name step;
                                st_agent_type := agentType step; st_status := Running;
                                st_result_json := None; st_error_message := SqlNull;
                                st_started_at := true; st_completed_at := false |}])
                   (UpdateExecutionStepFailed (SqlText (message fault)) (stepIds i))))
        as Hsettled.
      { eapply (steps_apply_update executionId stepIds i rows _ _ Failed);
          [done..|right; eauto]. }
      rewrite steps_apply_execution; try done; [|by destruct Hsettled].
      eapply (settled_observed executionId stepIds (S i)); [simpl; lia|done].
Qed.

(** Up to any point of an interleaving, the step rows of the execution
    are those its own statements so far produce. *)
Lemma interleaving_own_rows mine others all :
  interleaving mine others all ->
  Forall (foreign executionId stepIds) others ->
  forall rows ws,
    (forall p, p `prefix_of` mine ->
       Forall (fun row => st_execution_id row = executionId)
         (foldl (steps_apply executionId) rows p) /\
       Forall (fun row => exists j, st_id row = stepIds j)
         (foldl (steps_apply executionId) rows p)) ->
    ws `prefix_of` all ->
    exists p, p `prefix_of` mine /\
      foldl (steps_apply executionId) rows ws = foldl (steps_apply executionId) rows p.
Proof.
  induction 1 as [|x mine others all Hmerge IH|y mine others all Hmerge IH];
    intros Hforeign rows ws Hinv Hws.
  - apply prefix_nil_inv in Hws as ->. by exists [].
  - destruct ws as [|w ws]; [exists []; split; [apply prefix_nil|done]|].
    pose proof (prefix_cons_inv_1 _ _ _ _ Hws) as ->.
    apply prefix_cons_inv_2 in Hws.
    destruct (IH Hforeign (steps_apply executionId rows x) ws) as (p & Hp & Heq);
      [|done|].
    { intros p Hp. apply (Hinv (x :: p)). by apply prefix_cons. }
    exists (x :: p). split; [by apply prefix_cons|done].
  - destruct ws as [|w ws]; [exists []; split; [apply prefix_nil|done]|].
    pose proof (prefix_cons_inv_1 _ _ _ _ Hws) as ->.
    apply prefix_cons_inv_2 in Hws.
    apply Forall_cons_1 in Hforeign as [Hy Hforeign].
    destruct (Hinv [] (prefix_nil _)) as [Hown Hids]. simpl in Hown, Hids.
    simpl. rewrite (steps_apply_foreign executionId stepIds) by done.
    by apply IH.
Qed.

(** C5 (sequential order). For an execution that starts with no step
    rows, at every point of its run, whatever statements of other tasks
    are interleaved with its own: its step rows carry the indices
    [0..k-1] in creation order for some [k] up to the length of the plan,
    every row but the one created last is in a terminal status, and at
    most one row is running. *)
Theorem C5_steps_in_order_one_running db steps others all ws :
  steps_of executionId db = [] ->
  interleaving
    (writes_of (background_task executeAgentStep sql_bind executionId stepIds steps))
    others all ->
  Forall (foreign executionId stepIds) others ->
  ws `prefix_of` all ->
  let rows := steps_of executionId (db_after db ws) in
  (exists k, (k <= length steps)%nat /\ map st_step_index rows = seq 0 k) /\
  (forall init last, rows = init ++ [last] ->
     Forall (fun row => is_terminal (st_status row) = true) init) /\
  (length (filter (fun row => st_status row = Running) rows) <= 1)%nat.
Proof.
  intros Hnew Hall Hforeign Hws. simpl.
  rewrite steps_of_after, Hnew.
  pose proof (Run_observed 0 steps empty_context _
                (for_loop_Run executeAgentStep sql_bind executionId stepIds steps 0
                   empty_context) []) as Hrun.
  assert (settled executionId stepIds 0 []) as Hstart by by split_and!.
  destruct (interleaving_own_rows _ _ _ Hall Hforeign [] ws) as (p & Hp & ->);
    [|done|].
  - intros p Hp. destruct (Hrun p Hstart Hp) as (? & ? & _). done.
  - by destruct (Hrun p Hstart Hp) as (_ & _ & ?).
Qed.
End SequentialRun.

Section StepRunner.
Variable generateContent : nat -> WorkflowStep -> Context -> ExecutorOutcome Thrown.
Variable JSON_parse : string -> Completion JsVal.

Local Abbreviation executeAgentStep :=
  (GeminiService.executeAgentStep generateContent JSON_parse).
Local Abbreviation failure := GeminiService.failure.
Local Abbreviation message_or_unknown := GeminiService.message_or_unknown.
Local Abbreviation no_text := GeminiService.no_text.

Lemma message_or_unknown_populated fault :
  message_or_unknown fault <> EmptyString.
Proof.
  unfold GeminiService.message_or_unknown.
  destruct (String.eqb (message fault) EmptyString) eqn:Hm; [done|].
  by apply String.eqb_neq.
Qed.




(** C7, as amended. A value [executeAgentStep] returns is either built
    by the runner itself, on an absent or empty response or on a caught
    fault, and then [success] is false, [error] is a populated message
    and [result] is absent; or it is the value parsed from the executor's
    non-empty response text, returned as parsed. *)
Theorem C7_runner_result_shape call step context value :
  executeAgentStep call step context = Normal value ->
  (exists msg,
      value = failure msg /\ msg <> EmptyString /\
      js_get value "success" = Normal (JBool false) /\
      js_get value "error" = Normal (JStr msg) /\
      js_get value "result" = Normal JUndefined) \/
  (exists text,
      generateContent call step context = Resolved (Some text) /\
      text <> EmptyString /\ JSON_parse text = Normal value).
Proof.
  unfold GeminiService.executeAgentStep.
  destruct (generateContent call step context) as [[fault|p]|text]; simpl.
  - intros [= <-]. left. eexists. split_and!; try done.
    apply message_or_unknown_populated.
  - destruct p; simpl; try discriminate; intros [= <-]; left; by eexists.
  - destruct text as [text|]; simpl.
    + destruct (String.eqb text EmptyString) eqn:Htext; simpl.
      * intros [= <-]. left. by eexists.
      * apply String.eqb_neq in Htext.
        destruct (JSON_parse text) as [v|fault] eqn:Hparse; simpl; intros [= <-].
        -- right. eauto.
        -- left. eexists. split_and!; try done. apply message_or_unknown_populated.
    + intros [= <-]. left. by eexists.
Qed.
End StepRunner.


(** C7: a failure without an error message, and a result together with an
  error, both returned as the executor worded them. *)
Lemma C7_counterexample :
(GeminiService.executeAgentStep (generate_text text_failure_without_error)
   sample_JSON_parse 0 stepA empty_context
 = Normal (JObj [("success", JBool false)])
 /\ ~ failure_has_message (JObj [("success", JBool false)]))
/\
(GeminiService.executeAgentStep (generate_text text_result_and_error)
   sample_JSON_parse 0 stepA empty_context
 = Normal (JObj [("success", JBool true); ("result", rows3); ("error", JStr "partial")])
 /\ ~ result_xor_error
        (JObj [("success", JBool true); ("result", rows3); ("error", JStr "partial")])).
Proof.
split; (split; [by vm_compute|]).
- intros H. destruct (H (JBool false) eq_refl eq_refl) as (msg & Hmsg & _).
  discriminate Hmsg.
- intros H. specialize (H rows3 (JStr "partial") eq_refl eq_refl). discriminate H.
Qed.

Section Analytics.

Lemma or_zero_Some q : (or_zero (Some q) == q)%Q.
Proof.
  simpl. destruct (Qeq_bool q 0) eqn:Hq; [|reflexivity].
  symmetry. by apply Qeq_bool_iff.
Qed.

Lemma Math_round_rounds_to x : rounds_to x (Math_round x).
Proof.
  unfold rounds_to, Math_round.
  pose proof (Qfloor_le (x + (1 # 2))) as Hle.
  pose proof (Qlt_floor (x + (1 # 2))) as Hlt.
  rewrite inject_Z_plus in Hlt. change (inject_Z 1) with 1%Q in Hlt.
  split; lra.
Qed.

Lemma rounds_to_proper x y r : (x == y)%Q -> rounds_to x r -> rounds_to y r.
Proof. unfold rounds_to. intros Hxy [? ?]. rewrite <- Hxy. done. Qed.

Lemma select_rate_spec rows q :
  select_rate rows = Some q -> (q == success_rate_spec rows)%Q.
Proof.
  unfold select_rate, success_rate_spec.
  destruct (length rows =? 0)%nat eqn:Hn; [done|]. intros [= <-].
  apply Nat.eqb_neq in Hn.
  assert (~ (inject_Z (Z.of_nat (length rows)) == 0)%Q) as Hne.
  { change 0%Q with (inject_Z 0). rewrite inject_Z_injective. lia. }
  field. done.
Qed.

Lemma count_status_total rows :
  (count_status Completed rows + count_status Failed rows
   + count_status Pending rows + count_status Running rows = length rows)%nat.
Proof.
  unfold count_status. induction rows as [|row rows IH]; [done|].
  rewrite !filter_cons. simpl.
  destruct (ex_status row); repeat case_decide; try done; simpl; lia.
Qed.

(** C8 (analytics aggregate). For every store the overview gives the
    number of workflows, the number of executions, a success rate which,
    when there are executions, is completed over total times one hundred
    rounded to the nearest integer, and a histogram with one entry per
    status that occurs, holding the number of executions in that status;
    the entries add up to the number of executions. *)
Theorem C8_analytics_overview db :
  let rows := workflow_executions db in
  let overview := analytics_overview db in
  totalWorkflows overview = length (workflows db) /\
  totalExecutions overview = length rows /\
  ((0 < length rows)%nat ->
   rounds_to (success_rate_spec rows) (successRate overview)) /\
  (forall s n, (s, n) ∈ statusBreakdown overview <->
               n = count_status s rows /\ (0 < n)%nat) /\
  NoDup (map fst (statusBreakdown overview)) /\
  foldr (fun entry total => (snd entry + total)%nat) 0%nat (statusBreakdown overview)
  = length rows.
Proof.
  simpl. split_and!; try done.
  - intros Hrows. unfold analytics_overview. simpl.
    destruct (select_rate (workflow_executions db)) as [q|] eqn:Hq.
    + eapply rounds_to_proper; [|apply Math_round_rounds_to].
      rewrite or_zero_Some. by apply select_rate_spec.
    + unfold select_rate in Hq.
      destruct (length (workflow_executions db)); [lia|done].
  - intros s n. unfold group_by_status.
    rewrite list_elem_of_filter. simpl. rewrite !elem_of_cons, elem_of_nil.
    split.
    + intros (Hn & [?|[?|[?|[?|[]]]]]); by simplify_eq/=.
    + intros (-> & Hn). split; [done|]. destruct s; auto.
  - unfold group_by_status. simpl. rewrite !filter_cons, filter_nil.
    repeat case_decide; simpl; by apply (bool_decide_unpack _).
  - rewrite <- (count_status_total (workflow_executions db)).
    unfold group_by_status. simpl. rewrite !filter_cons, filter_nil.
    repeat case_decide; simpl in *; lia.
Qed.

(** C9 (no executions). With no execution stored, the rate selected is
    NULL rather than a failed division, and the overview reports a success
    rate of 0 over 0 executions. *)
Theorem C9_no_executions_rate_zero db :
  workflow_executions db = [] ->
  select_rate (workflow_executions db) = None /\
  successRate (analytics_overview db) = 0%Z /\
  totalExecutions (analytics_overview db) = 0%nat.
Proof. unfold analytics_overview. intros ->. by vm_compute. Qed.

End Analytics.

Section Handlers.
Variable executeAgentStep : nat -> WorkflowStep -> Context -> Completion JsVal.
Variable sql_bind : JsVal -> Completion SqlVal.
Variable number_text : Z -> string.

Lemma find_none_not_in {Row} (key : Row -> Id) (id : Id) (rows : list Row) :
  id ∉ map key rows ->
  find (fun row => bool_decide (key row = id)) rows = None.
Proof.
  induction rows as [|row rows IH]; [done|].
  simpl. rewrite not_elem_of_cons. intros [Hne Hin].
  rewrite bool_decide_eq_false_2 by done. by apply IH.
Qed.

(** C4, as amended (unknown workflow). [workflowId] is what the request
    carries. When the driver binds it and the bound value is the
    identifier of no stored workflow, the handler answers 404 with the
    error message "Workflow not found" and performs no effect: no
    statement runs, so [workflow_executions], and the store as a whole,
    are unchanged. When the driver refuses to bind it, the handler throws
    what the driver throws, before any statement: it gives no response,
    and performs no effect either. A 404 is never preceded by a
    statement. *)
Theorem C4_unknown_workflow_not_found db workflowId executionId stepIds :
  let outcome :=
    execute_handler executeAgentStep sql_bind number_text db workflowId executionId
      stepIds in
  (forall bound,
      sql_bind workflowId = Normal bound ->
      (forall id, compared_text number_text bound = Some id ->
                  id ∉ map wf_id (workflows db)) ->
      exists response events,
        outcome = Normal (response, events) /\
        response = {| http_status := 404; body := ErrorBody "Workflow not found" |} /\
        events = [] /\
        workflow_executions (db_after db (writes_of events)) = workflow_executions db /\
        db_after db (writes_of events) = db) /\
  (forall fault, sql_bind workflowId = Throw fault -> outcome = Throw fault) /\
  (forall response events,
      outcome = Normal (response, events) ->
      http_status response = 404 ->
      events = [] /\
      exists bound,
        sql_bind workflowId = Normal bound /\
        forall id, compared_text number_text bound = Some id ->
                   id ∉ map wf_id (workflows db)).
Proof.
  simpl. unfold execute_handler. split_and!.
  - intros bound -> Hunknown. simpl.
    destruct (compared_text number_text bound) as [id|] eqn:Hid.
    + unfold post_executions_execute, select_workflow.
      rewrite (find_none_not_in wf_id) by auto.
      by eexists _, _.
    + by eexists _, _.
  - by intros fault ->.
  - intros response events Houtcome Hstatus.
    destruct (sql_bind workflowId) as [bound|fault]; simpl in Houtcome; [|done].
    destruct (compared_text number_text bound) as [id|] eqn:Hid.
    + unfold post_executions_execute in Houtcome.
      destruct (select_workflow db id) as [workflow|] eqn:Hfound.
      * injection Houtcome as <- <-. discriminate Hstatus.
      * injection Houtcome as <- <-. split; [done|].
        exists bound. split; [done|]. intros id' Hid' Hin.
        rewrite Hid in Hid'. injection Hid' as <-.
        unfold select_workflow in Hfound.
        apply list_elem_of_fmap in Hin as (row & Hrow & Hin).
        assert (In row (workflows db)) as Hstored by by apply list_elem_of_In.
        pose proof (find_none _ _ Hfound row Hstored) as Hmiss. simpl in Hmiss.
        rewrite bool_decide_eq_true_2 in Hmiss by done.
        discriminate Hmiss.
    + injection Houtcome as <- <-. split; [done|].
      exists bound. split; [done|]. intros id' Hid'. by rewrite Hid in Hid'.
Qed.

Lemma filter_none {A} (P : A -> Prop) `{!forall x, Decision (P x)} (l : list A) :
  Forall (fun x => ~ P x) l -> filter P l = [].
Proof.
  induction 1 as [|x l Hx _ IH]; [done|].
  by rewrite filter_cons, decide_False.
Qed.

(** C10 (unknown execution). In a referential store, for an [id] that
    is the identifier of no stored execution, the handler answers 200
    with an object that has no execution fields and whose [steps] is the
    empty list. *)
Theorem C10_unknown_execution_empty_detail db id :
  referential db ->
  id ∉ map ex_id (workflow_executions db) ->
  get_execution db id = {| http_status := 200; body := ExecutionDetail None [] |}.
Proof.
  intros Href Hunknown. unfold get_execution, res_json.
  rewrite (find_none_not_in ex_id) by done.
  rewrite filter_none; [done|].
  eapply Forall_impl; [exact Href|].
  intros row Hrow Hid. simpl in Hrow. by rewrite Hid in Hrow.
Qed.

Lemma update_where_map {Row B} (f : Row -> B) matches set (rows : list Row) :
  (forall row, f (set row) = f row) ->
  map f (update_where matches set rows) = map f rows.
Proof.
  intros Hset. unfold update_where. rewrite map_map.
  apply map_ext. intros row. by destruct (matches row).
Qed.

(** The store stays referential under every statement that attaches a
    step row to a stored execution; identifiers of executions are never
    removed. *)
Lemma referential_apply db w :
  referential db ->
  (forall e, referenced_execution w = Some e -> e ∈ map ex_id (workflow_executions db)) ->
  referential (db_apply db w) /\
  (forall e, e ∈ map ex_id (workflow_executions db) ->
             e ∈ map ex_id (workflow_executions (db_apply db w))).
Proof.
  unfold referential. intros Href Hw.
  destruct w; simpl; try rewrite !update_where_map by done; try (split; [|done]);
    try done.
  - split.
    + eapply Forall_impl; [exact Href|]. intros row Hrow. simpl in *.
      rewrite map_app, elem_of_app. by left.
    + intros e He. rewrite map_app, elem_of_app. by left.
  - apply Forall_app. split; [done|]. constructor; [|done]. simpl. by apply Hw.
  - apply Forall_forall. intros row Hrow.
    apply list_elem_of_fmap in Hrow as (row' & -> & Hrow').
    rewrite Forall_forall in Href. specialize (Href _ Hrow').
    by case_bool_decide.
  - apply Forall_forall. intros row Hrow.
    apply list_elem_of_fmap in Hrow as (row' & -> & Hrow').
    rewrite Forall_forall in Href. specialize (Href _ Hrow').
    by case_bool_decide.
Qed.

Lemma referential_after executionId ws : forall db,
  referential db ->
  executionId ∈ map ex_id (workflow_executions db) ->
  Forall (fun w => forall e, referenced_execution w = Some e -> e = executionId) ws ->
  referential (db_after db ws).
Proof.
  unfold db_after.
  induction ws as [|w ws IH]; intros db Href Hin Hws; [done|].
  apply Forall_cons_1 in Hws as [Hw Hws]. simpl.
  destruct (referential_apply db w Href) as [Href' Hids].
  { intros e He. by rewrite (Hw e He). }
  apply IH; auto.
Qed.

Lemma Run_references executionId stepIds i steps context events :
  Run executionId stepIds i steps context events ->
  Forall (fun w => forall e, referenced_execution w = Some e -> e = executionId)
    (writes_of events).
Proof.
  induction 1; simpl; repeat constructor; simpl; try done; congruence.
Qed.

(** Every state the store goes through while a request to execute a
    workflow is served is referential, if the store was. *)
Lemma referential_execute db workflowId executionId stepIds ws :
  referential db ->
  ws `prefix_of`
    writes_of (snd (post_executions_execute executeAgentStep sql_bind db workflowId
                      executionId stepIds)) ->
  referential (db_after db ws).
Proof.
  intros Href. unfold post_executions_execute.
  destruct (select_workflow db workflowId) as [workflow|]; simpl.
  - intros Hws. destruct ws as [|w ws]; [done|].
    pose proof (prefix_cons_inv_1 _ _ _ _ Hws) as ->.
    apply prefix_cons_inv_2 in Hws as [rest Hws].
    destruct (referential_apply db (InsertExecution executionId workflowId Running) Href)
      as [Href' _]; [done|].
    unfold db_after. simpl.
    apply (referential_after executionId); [done| |].
    + simpl. rewrite map_app, elem_of_app. right. by apply list_elem_of_singleton.
    + pose proof (Run_references _ _ _ _ _ _
                    (for_loop_Run executeAgentStep sql_bind executionId stepIds
                       (wf_steps_json workflow) 0 empty_context)) as Hall.
      rewrite Hws in Hall. by apply Forall_app in Hall as [? _].
  - intros Hws. by apply prefix_nil_inv in Hws as ->.
Qed.

Lemma referential_empty : referential empty_db.
Proof. constructor. Qed.
End Handlers.

(** C4: a request whose [workflowId] is the boolean [true]. It is the
    identifier of no stored workflow, the driver refuses to bind it, and
    the handler throws instead of answering 404. *)
Lemma C4_counterexample :
  ~ resolves sample_db (JBool true) /\
  execute_handler runner_ok sample_sql_bind sample_number_text sample_db (JBool true) "e3"
    sample_stepIds
  = Throw (mkError "SQLite3 can only bind numbers, strings, bigints, buffers, and null") /\
  ~ answers_not_found
      (execute_handler runner_ok sample_sql_bind sample_number_text sample_db (JBool true)
         "e3" sample_stepIds) /\
  ~ (forall runner sql_bind number_text db workflowId executionId stepIds,
        ~ resolves db workflowId ->
        answers_not_found
          (execute_handler runner sql_bind number_text db workflowId executionId stepIds)).
Proof.
  assert (~ resolves sample_db (JBool true)) as Hunknown.
  { intros (row & _ & Hid). discriminate Hid. }
  assert (~ answers_not_found
            (execute_handler runner_ok sample_sql_bind sample_number_text sample_db
               (JBool true) "e3" sample_stepIds)) as Hthrows.
  { intros (msg & events & Houtcome). discriminate Houtcome. }
  split; [exact Hunknown|]. split; [by vm_compute|]. split; [exact Hthrows|].
  intros Hclaim. apply Hthrows. by apply Hclaim.
Qed.


(** ** The theorems at sample inputs *)

Lemma interleaving_others_first {A} (mine others : list A) :
  interleaving mine others (others ++ mine).
Proof.
  induction others as [|y others IH]; simpl.
  - induction mine; by constructor.
  - by constructor.
Qed.

Lemma C1_fail_fast_halt_witness :
  background_task runner_timeout sample_sql_bind "e3" sample_stepIds [stepA; stepB]
  = timeout_before ++ Db timeout_write :: timeout_after /\
  step_failure timeout_write = Some ("step-0", SqlText "timeout") /\
  exists i,
    "step-0" = sample_stepIds i /\
    created_indices (writes_of timeout_before) = seq 0 (S i) /\
    invocations timeout_after = [] /\
    writes_of timeout_after = [UpdateExecutionFailed (SqlText "timeout") "e3"].
Proof.
  assert (background_task runner_timeout sample_sql_bind "e3" sample_stepIds [stepA; stepB]
          = timeout_before ++ Db timeout_write :: timeout_after) as Hrun
    by (vm_compute; reflexivity).
  split; [exact Hrun|]. split; [reflexivity|].
  destruct (C1_fail_fast_halt runner_timeout sample_sql_bind "e3" sample_stepIds
              [stepA; stepB]) as [_ Hhalt].
  destruct (Hhalt timeout_before timeout_write timeout_after
              "step-0" (SqlText "timeout") Hrun eq_refl)
    as (i & step & _ & Hid & Hidx & _ & Hinv & Hafter & _).
  exists i. repeat split; assumption.
Defined.

Lemma C3_completed_after_last_step_witness :
  background_task runner_ok sample_sql_bind "e3" sample_stepIds [stepA; stepB]
  = success_before ++ Db (UpdateExecutionCompleted "e3") :: success_after /\
  writes_of success_after = [] /\
  omap step_completion (writes_of success_before) = ["step-0"; "step-1"].
Proof.
  assert (background_task runner_ok sample_sql_bind "e3" sample_stepIds [stepA; stepB]
          = success_before ++ Db (UpdateExecutionCompleted "e3") :: success_after) as Hrun
    by (vm_compute; reflexivity).
  split; [exact Hrun|].
  destruct (C3_completed_after_last_step runner_ok sample_sql_bind "e3" sample_stepIds
              [stepA; stepB]) as (Hsafe & _ & _).
  destruct (Hsafe success_before "e3" success_after Hrun) as (_ & Hafter & Hdone & _).
  split; assumption.
Defined.

Lemma C4_unknown_workflow_not_found_witness :
  sample_sql_bind (JStr "w9") = Normal (SqlText "w9") /\
  (forall id, compared_text sample_number_text (SqlText "w9") = Some id ->
              id ∉ map wf_id (workflows sample_db)) /\
  execute_handler runner_ok sample_sql_bind sample_number_text sample_db (JStr "w9") "e3"
    sample_stepIds
  = Normal ({| http_status := 404; body := ErrorBody "Workflow not found" |}, []).
Proof.
  assert (forall id, compared_text sample_number_text (SqlText "w9") = Some id ->
                     id ∉ map wf_id (workflows sample_db)) as Hunknown.
  { intros id [= <-]. simpl. intros Hin. apply list_elem_of_singleton in Hin.
    discriminate Hin. }
  split; [reflexivity|]. split; [exact Hunknown|].
  destruct (C4_unknown_workflow_not_found runner_ok sample_sql_bind sample_number_text
              sample_db (JStr "w9") "e3" sample_stepIds) as (Hnot_found & _).
  destruct (Hnot_found (SqlText "w9") eq_refl Hunknown)
    as (response & events & Houtcome & Hresponse & Hevents & _).
  rewrite Houtcome, Hresponse, Hevents. reflexivity.
Defined.

Lemma C5_steps_in_order_one_running_witness :
  steps_of "e3" sample_db = [] /\
  Forall (foreign "e3" sample_stepIds) other_writes /\
  (length
     (filter (fun row => st_status row = Running)
        (steps_of "e3"
           (db_after sample_db
              (other_writes
                 ++ take 3 (writes_of (background_task runner_ok sample_sql_bind "e3"
                                         sample_stepIds [stepA; stepB]))))))
   <= 1)%nat.
Proof.
  assert (steps_of "e3" sample_db = []) as Hnew by reflexivity.
  assert (Forall (foreign "e3" sample_stepIds) other_writes) as Hforeign.
  { repeat constructor. simpl. discriminate. }
  split; [exact Hnew|]. split; [exact Hforeign|].
  refine (proj2 (proj2
    (C5_steps_in_order_one_running runner_ok sample_sql_bind "e3" sample_stepIds
       sample_db [stepA; stepB] other_writes _ _ Hnew
       (interleaving_others_first _ _) Hforeign _))).
  apply prefix_app, prefix_take.
Defined.


Lemma C7_runner_result_shape_witness :
  GeminiService.executeAgentStep generate_rejection sample_JSON_parse 0 stepA empty_context
  = Normal (GeminiService.failure "fetch failed") /\
  ((exists msg,
       GeminiService.failure "fetch failed" = GeminiService.failure msg /\
       msg <> EmptyString /\
       js_get (GeminiService.failure "fetch failed") "success" = Normal (JBool false) /\
       js_get (GeminiService.failure "fetch failed") "error" = Normal (JStr msg) /\
       js_get (GeminiService.failure "fetch failed") "result" = Normal JUndefined) \/
   (exists text,
       generate_rejection 0 stepA empty_context = Resolved (Some text) /\
       text <> EmptyString /\
       sample_JSON_parse text = Normal (GeminiService.failure "fetch failed"))).
Proof.
  split; [reflexivity|].
  exact (C7_runner_result_shape generate_rejection sample_JSON_parse 0 stepA empty_context
           (GeminiService.failure "fetch failed") eq_refl).
Defined.

Lemma C8_analytics_overview_witness :
  (0 < length (workflow_executions sample_db))%nat /\
  successRate (analytics_overview sample_db) = 67%Z /\
  rounds_to (success_rate_spec (workflow_executions sample_db)) 67.
Proof.
  assert (0 < length (workflow_executions sample_db))%nat as Hrows by (simpl; lia).
  split; [exact Hrows|]. split; [reflexivity|].
  destruct (C8_analytics_overview sample_db) as (_ & _ & Hrate & _).
  exact (Hrate Hrows).
Defined.

Lemma C9_no_executions_rate_zero_witness :
  workflow_executions empty_db = [] /\
  successRate (analytics_overview empty_db) = 0%Z.
Proof.
  split; [reflexivity|].
  destruct (C9_no_executions_rate_zero empty_db eq_refl) as (_ & Hrate & _).
  exact Hrate.
Defined.

Lemma C10_unknown_execution_empty_detail_witness :
  referential sample_db /\
  ("e7" ∉ map ex_id (workflow_executions sample_db)) /\
  get_execution sample_db "e7"
  = {| http_status := 200; body := ExecutionDetail None [] |}.
Proof.
  assert (referential sample_db) as Href.
  { repeat constructor. }
  assert ("e7" ∉ map ex_id (workflow_executions sample_db)) as Hunknown.
  { simpl. rewrite !not_elem_of_cons. repeat split; try discriminate. apply not_elem_of_nil. }
  split; [exact Href|]. split; [exact Hunknown|].
  exact (C10_unknown_execution_empty_detail sample_db "e7" Href Hunknown).
Defined.


(** * Further properties *)

Section PlannerProperties.
Variable generatePlanContent : nat -> string -> ExecutorOutcome JsError.
Variable JSON_parse_plan : string -> Completion WorkflowPlan.

(** X1. [generateWorkflowPlan] hides no fault and invents no plan: a
    rejection of the model is thrown on as it is, an absent or empty text
    is thrown as "Empty response from AI", a non-empty text gives what
    [JSON.parse] gives, its error included; and a plan is returned only
    when the model gave a non-empty text that parses to it. *)
Theorem X1_planner_propagates call prompt :
  (forall fault,
      generatePlanContent call prompt = Rejected fault ->
      generateWorkflowPlan generatePlanContent JSON_parse_plan call prompt = Throw fault) /\
  (forall text,
      generatePlanContent call prompt = Resolved text ->
      GeminiService.no_text text = true ->
      generateWorkflowPlan generatePlanContent JSON_parse_plan call prompt
      = Throw (mkError "Empty response from AI")) /\
  (forall text,
      generatePlanContent call prompt = Resolved (Some text) ->
      text <> EmptyString ->
      generateWorkflowPlan generatePlanContent JSON_parse_plan call prompt
      = JSON_parse_plan text) /\
  (forall plan,
      generateWorkflowPlan generatePlanContent JSON_parse_plan call prompt = Normal plan ->
      exists text,
        generatePlanContent call prompt = Resolved (Some text) /\
        text <> EmptyString /\ JSON_parse_plan text = Normal plan).
Proof.
  unfold generateWorkflowPlan. split_and!.
  - by intros fault ->.
  - intros text -> Hno. simpl. by rewrite Hno.
  - intros text -> Htext. simpl.
    apply String.eqb_neq in Htext. rewrite Htext.
    by destruct (JSON_parse_plan text).
  - destruct (generatePlanContent call prompt) as [fault|[text|]]; simpl; try done.
    destruct (String.eqb text EmptyString) eqn:Htext; simpl; [done|].
    apply String.eqb_neq in Htext.
    destruct (JSON_parse_plan text) as [p|fault] eqn:Hparse; simpl; [|done].
    intros plan [= <-]. eauto.
Qed.
End PlannerProperties.

Section CreationProperties.
Variable planner : nat -> JsVal -> Settled Thrown WorkflowPlan.
Variable sql_bind : JsVal -> Completion SqlVal.

Lemma select_workflow_app db row id found :
  select_workflow db id = Some found ->
  select_workflow
    {| workflows := workflows db ++ [row];
       workflow_executions := workflow_executions db;
       execution_steps := execution_steps db |} id = Some found.
Proof.
  unfold select_workflow. simpl.
  induction (workflows db) as [|r rows IH]; simpl; [done|].
  by destruct (bool_decide (wf_id r = id)).
Qed.

Lemma select_workflow_new db row :
  wf_id row ∉ map wf_id (workflows db) ->
  select_workflow
    {| workflows := workflows db ++ [row];
       workflow_executions := workflow_executions db;
       execution_steps := execution_steps db |} (wf_id row) = Some row.
Proof.
  unfold select_workflow. simpl.
  induction (workflows db) as [|r rows IH]; simpl.
  - intros _. by rewrite bool_decide_eq_true_2.
  - rewrite not_elem_of_cons. intros [Hne Hin].
    rewrite bool_decide_eq_false_2 by done. by apply IH.
Qed.

(** The handler once the plan is there and the prompt is bound. *)
Lemma create_stored call prompt id plan bound :
  planner call prompt = Resolved plan ->
  sql_bind prompt = Normal bound ->
  post_workflows_create planner sql_bind call prompt id
  = ([Db (InsertWorkflow id (plan_name plan) (plan_description plan) bound
            (plan_steps plan))],
     Next {| create_status := 200; create_body := CreatedWorkflow id plan |}).
Proof. unfold post_workflows_create. by intros -> ->. Qed.

(** The handler when the driver refuses the prompt. *)
Lemma create_refused call prompt id plan fault :
  planner call prompt = Resolved plan ->
  sql_bind prompt = Throw fault ->
  post_workflows_create planner sql_bind call prompt id
  = ([], Next {| create_status := 500;
                 create_body := CreateError (JStr (message fault)) |}).
Proof. unfold post_workflows_create. by intros -> ->. Qed.

(** X2. Creating a workflow is all or nothing. For a new identifier:
    when the planner gives a plan and the driver binds the prompt, the
    handler answers 200 with the identifier and the plan, and the store
    has one more workflow, which that identifier resolves to, with the
    name, description and steps of the plan and the prompt as bound. In
    every other case no statement runs: when the driver refuses the
    prompt, or the planner throws an object, the answer is 500 with the
    message of what was thrown; when the planner throws another
    primitive than [undefined] and [null], it is 500 with no message;
    and when the planner throws [undefined] or [null], the [catch]
    itself throws and the handler gives no answer. So a statement has
    run only if 200 was answered. *)
Theorem X2_create_all_or_nothing db call prompt id :
  id ∉ map wf_id (workflows db) ->
  let outcome := post_workflows_create planner sql_bind call prompt id in
  let db' := db_after db (writes_of (fst outcome)) in
  (forall plan bound,
      planner call prompt = Resolved plan -> sql_bind prompt = Normal bound ->
      let row :=
        {| wf_id := id; wf_name := plan_name plan;
           wf_description := plan_description plan;
           wf_original_prompt := bound; wf_steps_json := plan_steps plan |} in
      snd outcome = Next {| create_status := 200; create_body := CreatedWorkflow id plan |} /\
      workflows db' = workflows db ++ [row] /\
      select_workflow db' id = Some row) /\
  (forall plan fault,
      planner call prompt = Resolved plan -> sql_bind prompt = Throw fault ->
      outcome = ([], Next {| create_status := 500;
                             create_body := CreateError (JStr (message fault)) |})) /\
  (forall fault,
      planner call prompt = Rejected (ThrownError fault) ->
      outcome = ([], Next {| create_status := 500;
                             create_body := CreateError (JStr (message fault)) |})) /\
  (forall p,
      planner call prompt = Rejected (ThrownPrimitive p) ->
      p <> PUndefined -> p <> PNull ->
      outcome = ([], Next {| create_status := 500; create_body := CreateError JUndefined |})) /\
  (forall p,
      planner call prompt = Rejected (ThrownPrimitive p) ->
      p = PUndefined \/ p = PNull ->
      exists fault, outcome = ([], Raise fault)) /\
  (writes_of (fst outcome) = [] \/
   exists plan,
     snd outcome = Next {| create_status := 200; create_body := CreatedWorkflow id plan |}).
Proof.
  intros Hnew. simpl. split_and!.
  - intros plan bound Hplan Hbound.
    rewrite (create_stored _ _ _ _ _ Hplan Hbound). simpl.
    split; [done|]. split; [done|].
    unfold db_after. simpl.
    exact (select_workflow_new db
             {| wf_id := id; wf_name := plan_name plan;
                wf_description := plan_description plan;
                wf_original_prompt := bound; wf_steps_json := plan_steps plan |} Hnew).
  - intros plan fault Hplan Hbound. by apply create_refused with plan.
  - unfold post_workflows_create. by intros fault ->.
  - unfold post_workflows_create. intros p -> Hundefined Hnull. by destruct p.
  - unfold post_workflows_create. intros p -> [->| ->]; simpl; by eexists.
  - unfold post_workflows_create.
    destruct (planner call prompt) as [[fault|p]|plan]; simpl.
    + by left.
    + left. by destruct p.
    + destruct (sql_bind prompt) as [bound|fault]; simpl; [right; by eexists|by left].
Qed.

(** X3. Creating a workflow disturbs nothing that is stored: the tables
    of executions and of steps are as before, every identifier that
    resolved to a workflow resolves to the same workflow, whatever
    identifier the new one got, and a referential store stays
    referential. *)
Theorem X3_create_keeps_store db call prompt id :
  let db' :=
    db_after db (writes_of (fst (post_workflows_create planner sql_bind call prompt id))) in
  workflow_executions db' = workflow_executions db /\
  execution_steps db' = execution_steps db /\
  (forall workflowId row,
      select_workflow db workflowId = Some row ->
      select_workflow db' workflowId = Some row) /\
  (referential db -> referential db') /\
  (executions_reference_workflows db -> executions_reference_workflows db').
Proof.
  unfold post_workflows_create, create_catch.
  destruct (planner call prompt) as [[fault|p]|plan]; simpl; [done| |].
  { by destruct p. }
  destruct (sql_bind prompt) as [bound|fault]; simpl; [|done].
  unfold db_after. simpl. split_and!; try done.
  - intros workflowId row. apply select_workflow_app.
  - unfold executions_reference_workflows. simpl. intros Href.
    eapply Forall_impl; [exact Href|]. intros e He. simpl in *.
    rewrite map_app, elem_of_app. by left.
Qed.

(** X4. A created workflow can be executed, and only a created one. For
    a new identifier and a planner that gives a plan: when the driver
    binds the prompt, a request to execute that identifier on the store
    after the creation is accepted, and its background task runs the
    steps of that plan; when the driver refuses the prompt, nothing was
    stored, and the same request is answered 404. *)
Theorem X4_create_then_execute runner db call prompt id plan executionId stepIds :
  planner call prompt = Resolved plan ->
  id ∉ map wf_id (workflows db) ->
  let db' :=
    db_after db (writes_of (fst (post_workflows_create planner sql_bind call prompt id))) in
  (forall bound,
      sql_bind prompt = Normal bound ->
      post_executions_execute runner sql_bind db' id executionId stepIds
      = (res_json (ExecutionStarted executionId),
         Db (InsertExecution executionId id Running)
           :: background_task runner sql_bind executionId stepIds (plan_steps plan))) /\
  (forall fault,
      sql_bind prompt = Throw fault ->
      post_executions_execute runner sql_bind db' id executionId stepIds
      = ({| http_status := 404; body := ErrorBody "Workflow not found" |}, [])).
Proof.
  intros Hplan Hnew. simpl. split.
  - intros bound Hbound. rewrite (create_stored _ _ _ _ _ Hplan Hbound). simpl.
    unfold db_after, post_executions_execute. simpl.
    pose proof (select_workflow_new db
                  {| wf_id := id; wf_name := plan_name plan;
                     wf_description := plan_description plan;
                     wf_original_prompt := bound; wf_steps_json := plan_steps plan |} Hnew)
      as Hfound.
    simpl in Hfound. by rewrite Hfound.
  - intros fault Hbound. rewrite (create_refused _ _ _ _ _ Hplan Hbound). simpl.
    unfold db_after, post_executions_execute, select_workflow. simpl.
    by rewrite (find_none_not_in wf_id) by done.
Qed.
End CreationProperties.

Section TaskProperties.
Variable executeAgentStep : nat -> WorkflowStep -> Context -> Completion JsVal.
Variable sql_bind : JsVal -> Completion SqlVal.
Variable executionId : Id.
Variable stepIds : nat -> Id.

Lemma Run_ends i steps context events :
  Run executionId stepIds i steps context events ->
  exists before w status error,
    events = before ++ [Db w; Broadcast (execution_update executionId status error)] /\
    execution_outcome w = Some (executionId, status) /\
    is_terminal status = true /\
    Forall (fun w' => execution_outcome w' = None) (writes_of before) /\
    Forall (fun w' => writes_execution w' = false) (writes_of before).
Proof.
  induction 1 as [i context|i step rest context result error em tail Htail IH
                 |i step rest context result error em|i step rest context fault].
  - by exists [], (UpdateExecutionCompleted executionId), Completed, JUndefined.
  - destruct IH as (before & w & status & err & -> & Hw & Hstatus & Hbefore & Hkind).
    eexists (_ :: _ :: _ :: _ :: _ :: before), w, status, err.
    split_and!; try done; simpl; by repeat constructor.
  - eexists [_; _; _; _; _], _, Failed, _. split_and!; try done;
      simpl; by repeat constructor.
  - eexists [_; _; _; _], _, Failed, _. split_and!; try done;
      simpl; by repeat constructor.
Qed.



Lemma Run_announces_created i steps context events :
  Run executionId stepIds i steps context events ->
  omap announced_running (messages_of events) = omap created_row (writes_of events).
Proof.
  induction 1 as [i context|i step rest context result error em tail Htail IH
                 |i step rest context result error em|i step rest context fault];
    simpl; try done; f_equal; exact IH.
Qed.

Lemma Run_announces_outcomes i steps context events :
  Run executionId stepIds i steps context events ->
  omap announced_outcome (messages_of events) = omap stored_outcome (writes_of events).
Proof.
  induction 1 as [i context|i step rest context result error em tail Htail IH
                 |i step rest context result error em|i step rest context fault];
    simpl; try done; f_equal; exact IH.
Qed.

(** Once the [catch] block has recorded a step as failed, the one message
    still sent is the failure of the execution. *)
Lemma Run_fault_silent i steps context events :
  Run executionId stepIds i steps context events ->
  forall before em id after,
    events = before ++ Db (UpdateExecutionStepFailed em id) :: after ->
    exists msg,
      em = SqlText msg /\
      messages_of after = [execution_update executionId Failed (JStr msg)].
Proof.
  induction 1 as [i context|i step rest context result error em tail Htail IH
                 |i step rest context result error em|i step rest context fault];
    intros before em' id after Heq; split_trace; eauto.
Qed.

(** X6. Notification parity. In every run of the background task the
    [step_update] messages with status running announce exactly the step
    rows created, in the same order and with the same identifier and
    index; and the [step_update] messages with a terminal status announce
    exactly the outcomes the [try] block stores, in the same order and
    with the same identifier and status. *)
Theorem X6_notification_parity steps :
  let events := background_task executeAgentStep sql_bind executionId stepIds steps in
  omap announced_running (messages_of events) = omap created_row (writes_of events) /\
  omap announced_outcome (messages_of events) = omap stored_outcome (writes_of events).
Proof.
  pose proof (for_loop_Run executeAgentStep sql_bind executionId stepIds steps 0
                empty_context) as Hrun.
  simpl. unfold background_task. simpl. split.
  - apply (Run_announces_created _ _ _ _ Hrun).
  - apply (Run_announces_outcomes _ _ _ _ Hrun).
Qed.

(** X7. A fault caught by the loop is not announced on its step: once
    the [catch] block has recorded a step as failed, no [step_update] is
    sent any more; the one message that follows reports the execution as
    failed, with the message of the error that was stored on the step. *)
Theorem X7_caught_fault_not_announced steps before em id after :
  background_task executeAgentStep sql_bind executionId stepIds steps
  = before ++ Db (UpdateExecutionStepFailed em id) :: after ->
  exists msg,
    em = SqlText msg /\
    messages_of after = [execution_update executionId Failed (JStr msg)].
Proof.
  unfold background_task. intros Heq.
  destruct before as [|e before]; [discriminate|].
  injection Heq as _ Heq.
  apply (Run_fault_silent _ _ _ _
           (for_loop_Run executeAgentStep sql_bind executionId stepIds steps 0 empty_context)
           _ _ _ _ Heq).
Qed.
End TaskProperties.

Section ExecuteProperties.
Variable executeAgentStep : nat -> WorkflowStep -> Context -> Completion JsVal.
Variable sql_bind : JsVal -> Completion SqlVal.

Lemma select_workflow_found db id :
  id ∈ map wf_id (workflows db) <-> is_Some (select_workflow db id).
Proof.
  unfold select_workflow. induction (workflows db) as [|row rows IH]; simpl.
  - split; [intros Hin; by apply elem_of_nil in Hin|intros [? ?]; done].
  - rewrite elem_of_cons. case_bool_decide as Hid.
    + split; [eauto|]. intros _. by left.
    + rewrite <- IH. split; [|by right]. intros [?|?]; [congruence|done].
Qed.

Lemma Run_creates_no_execution executionId stepIds i steps context events :
  Run executionId stepIds i steps context events ->
  Forall (fun w => created_execution w = None /\ writes_workflow w = false)
    (writes_of events).
Proof. induction 1; simpl; by repeat constructor. Qed.

Lemma workflows_untouched ws : forall db,
  Forall (fun w => writes_workflow w = false) ws ->
  workflows (db_after db ws) = workflows db.
Proof.
  unfold db_after.
  induction ws as [|w ws IH]; intros db Hws; [done|].
  apply Forall_cons_1 in Hws as [Hw Hws]. simpl.
  rewrite IH by done. by destruct w.
Qed.

Lemma references_apply db w :
  executions_reference_workflows db ->
  writes_workflow w = false ->
  (forall id workflow_id status,
      created_execution w = Some (id, workflow_id, status) ->
      workflow_id ∈ map wf_id (workflows db)) ->
  executions_reference_workflows (db_apply db w).
Proof.
  unfold executions_reference_workflows. intros Href Hkind Hw.
  destruct w; simpl in *; try done.
  - apply Forall_app. split; [done|]. constructor; [|done]. simpl. by eapply Hw.
  - apply Forall_forall. intros row Hrow.
    apply list_elem_of_fmap in Hrow as (row' & -> & Hrow').
    rewrite Forall_forall in Href. specialize (Href _ Hrow').
    by case_bool_decide.
  - apply Forall_forall. intros row Hrow.
    apply list_elem_of_fmap in Hrow as (row' & -> & Hrow').
    rewrite Forall_forall in Href. specialize (Href _ Hrow').
    by case_bool_decide.
Qed.

Lemma references_after ws : forall db,
  executions_reference_workflows db ->
  Forall (fun w => created_execution w = None /\ writes_workflow w = false) ws ->
  executions_reference_workflows (db_after db ws).
Proof.
  unfold db_after.
  induction ws as [|w ws IH]; intros db Href Hws; [done|].
  apply Forall_cons_1 in Hws as [[Hnone Hkind] Hws]. simpl.
  apply IH; [|done]. apply references_apply; [done..|].
  intros id workflow_id status Hw. congruence.
Qed.

(** X8. A request to execute is accepted exactly when its workflow is
    stored. An accepted request creates one execution and no more, as its
    first statement: running, under the identifier the response carries,
    for the workflow asked. At no point does the request, accepted or
    not, change the stored workflows, and it keeps every execution an
    execution of a stored workflow. *)
Theorem X8_execute_creates_one_execution db workflowId executionId stepIds :
  let outcome :=
    post_executions_execute executeAgentStep sql_bind db workflowId executionId stepIds in
  (http_status (fst outcome) = 200 <-> workflowId ∈ map wf_id (workflows db)) /\
  (workflowId ∈ map wf_id (workflows db) ->
   fst outcome = res_json (ExecutionStarted executionId) /\
   head (writes_of (snd outcome)) = Some (InsertExecution executionId workflowId Running) /\
   omap created_execution (writes_of (snd outcome)) = [(executionId, workflowId, Running)]) /\
  (forall ws,
      ws `prefix_of` writes_of (snd outcome) ->
      workflows (db_after db ws) = workflows db /\
      (executions_reference_workflows db ->
       executions_reference_workflows (db_after db ws))).
Proof.
  simpl. unfold post_executions_execute.
  pose proof (select_workflow_found db workflowId) as Hfound.
  destruct (select_workflow db workflowId) as [workflow|] eqn:Hselect; simpl.
  - assert (workflowId ∈ map wf_id (workflows db)) as Hin by (apply Hfound; eauto).
    pose proof (Run_creates_no_execution _ _ _ _ _ _
                  (for_loop_Run executeAgentStep sql_bind executionId stepIds
                     (wf_steps_json workflow) 0 empty_context)) as Hkinds.
    split_and!; try done.
    + intros _. split_and!; try done. f_equal.
      induction Hkinds as [|w ws [Hw _] _ IH]; [done|]. simpl. by rewrite Hw.
    + intros ws Hws. destruct ws as [|w ws]; [done|].
      pose proof (prefix_cons_inv_1 _ _ _ _ Hws) as ->.
      apply prefix_cons_inv_2 in Hws as [rest Hws].
      rewrite Hws in Hkinds. apply Forall_app in Hkinds as [Hkinds _].
      unfold db_after. simpl. split.
      * rewrite (workflows_untouched ws); [done|].
        eapply Forall_impl; [exact Hkinds|]. by intros w [_ ?].
      * intros Href. apply references_after; [|done].
        apply (references_apply db (InsertExecution executionId workflowId Running));
          [done..|].
        intros id wid status [= _ <- _]. done.
  - split_and!; try done.
    + split; [done|]. intros Hin. apply Hfound in Hin as [? ?]. done.
    + intros Hin. apply Hfound in Hin as [? ?]. done.
    + intros ws Hws. by apply prefix_nil_inv in Hws as ->.
Qed.
End ExecuteProperties.

Section RowProperties.
Variable executeAgentStep : nat -> WorkflowStep -> Context -> Completion JsVal.
Variable sql_bind : JsVal -> Completion SqlVal.
Variable executionId : Id.
Variable stepIds : nat -> Id.

Lemma steps_apply_owned rows w :
  Forall (fun row => st_execution_id row = executionId) (steps_apply executionId rows w).
Proof.
  unfold steps_apply, steps_of. apply Forall_forall. intros row Hrow.
  by apply list_elem_of_filter in Hrow as [? _].
Qed.

Lemma steps_apply_keys rows w :
  Forall (fun row => st_execution_id row = executionId) rows ->
  map row_key (steps_apply executionId rows w)
  = map row_key rows ++ option_list (created_key executionId w).
Proof.
  intros Hown. unfold steps_apply, steps_of.
  destruct w; simpl; rewrite ?app_nil_r; try (by rewrite filter_id).
  - rewrite filter_app, filter_id by done. rewrite filter_cons.
    case_bool_decide as He; simpl.
    + rewrite decide_True by done. by rewrite map_app.
    + rewrite decide_False by done. by rewrite filter_nil, !app_nil_r.
  - rewrite filter_update_where, filter_id by done.
    apply update_where_map. done.
  - rewrite filter_update_where, filter_id by done.
    apply update_where_map. done.
Qed.

Lemma keys_after ws : forall rows,
  Forall (fun row => st_execution_id row = executionId) rows ->
  map row_key (foldl (steps_apply executionId) rows ws)
  = map row_key rows ++ omap (created_key executionId) ws.
Proof.
  induction ws as [|w ws IH]; intros rows Hown; simpl.
  - by rewrite app_nil_r.
  - rewrite IH by apply steps_apply_owned.
    rewrite steps_apply_keys by done. rewrite <- app_assoc. f_equal.
    by destruct (created_key executionId w).
Qed.

Lemma Run_created_keys i steps context events :
  Run executionId stepIds i steps context events ->
  omap (created_key executionId) (writes_of events)
    `prefix_of` imap (fun j step => ((i + j)%nat, name step, agentType step)) steps /\
  (Forall (fun w => step_failure w = None) (writes_of events) ->
   omap (created_key executionId) (writes_of events)
   = imap (fun j step => ((i + j)%nat, name step, agentType step)) steps).
Proof.
  induction 1 as [i context|i step rest context result error em tail Htail [IH1 IH2]
                 |i step rest context result error em|i step rest context fault];
    simpl.
  - done.
  - rewrite bool_decide_eq_true_2 by done. simpl. rewrite Nat.add_0_r.
    rewrite (imap_ext _ (fun j step => ((S i + j)%nat, name step, agentType step)))
      by (intros; simpl; f_equal; f_equal; lia).
    split.
    + by apply prefix_cons.
    + intros Hnofail. do 2 apply Forall_cons_1 in Hnofail as [_ Hnofail].
      f_equal. by apply IH2.
  - rewrite bool_decide_eq_true_2 by done. simpl. rewrite Nat.add_0_r. split.
    + apply prefix_cons, prefix_nil.
    + intros Hnofail. apply Forall_cons_1 in Hnofail as [_ Hnofail].
      by apply Forall_cons_1 in Hnofail as [? _].
  - rewrite bool_decide_eq_true_2 by done. simpl. rewrite Nat.add_0_r. split.
    + apply prefix_cons, prefix_nil.
    + intros Hnofail. apply Forall_cons_1 in Hnofail as [_ Hnofail].
      by apply Forall_cons_1 in Hnofail as [? _].
Qed.

Lemma omap_prefix {A B} (f : A -> option B) (l1 l2 : list A) :
  l1 `prefix_of` l2 -> omap f l1 `prefix_of` omap f l2.
Proof. intros [k ->]. rewrite omap_app. by apply prefix_app_r. Qed.

(** X9. The step rows of an execution mirror its plan. For an execution
    that starts with no step rows, at every point of its run the rows
    carry, in order, the index, the name and the agent type of the first
    steps of the plan: row [j] is step [j]. *)
Theorem X9_rows_mirror_plan db steps ws :
  steps_of executionId db = [] ->
  ws `prefix_of`
    writes_of (background_task executeAgentStep sql_bind executionId stepIds steps) ->
  map row_key (steps_of executionId (db_after db ws)) `prefix_of` plan_keys steps.
Proof.
  intros Hnew Hws. rewrite steps_of_after, Hnew, keys_after by done. simpl.
  etrans; [by apply omap_prefix|].
  unfold background_task. simpl.
  apply (Run_created_keys 0 steps empty_context _
           (for_loop_Run executeAgentStep sql_bind executionId stepIds steps 0 empty_context)).
Qed.

Lemma update_where_miss (id : Id) (set : StepRow -> StepRow) (rows : list StepRow) :
  Forall (fun row => st_id row <> id) rows ->
  update_where (fun row => bool_decide (st_id row = id)) set rows = rows.
Proof.
  intros Hmiss. unfold update_where.
  rewrite <- (map_id rows) at 2. apply map_ext_Forall.
  eapply Forall_impl; [exact Hmiss|]. intros row Hrow. simpl.
  by rewrite bool_decide_eq_false_2.
Qed.

Lemma Run_all_completed i steps context events :
  Run executionId stepIds i steps context events ->
  Forall (fun w => step_failure w = None) (writes_of events) ->
  forall rows,
    Forall (fun row => st_execution_id row = executionId) rows ->
    Forall (fun row => st_status row = Completed /\ st_completed_at row = true) rows ->
    Forall (fun row => st_status row = Completed /\ st_completed_at row = true)
      (foldl (steps_apply executionId) rows (writes_of events)).
Proof.
  induction 1 as [i context|i step rest context result error em tail Htail IH
                 |i step rest context result error em|i step rest context fault];
    simpl; intros Hnofail rows Hown Hdone.
  - unfold steps_apply, steps_of. simpl. by rewrite filter_id.
  - do 2 apply Forall_cons_1 in Hnofail as [_ Hnofail].
    apply IH; [done|apply steps_apply_owned|].
    unfold steps_apply at 1, steps_of. cbn [db_apply execution_steps].
    rewrite filter_update_where by done.
    apply Forall_forall. intros row Hrow.
    unfold update_where in Hrow.
    apply list_elem_of_fmap in Hrow as (row' & -> & Hrow').
    case_bool_decide as Hid; [done|].
    apply list_elem_of_filter in Hrow' as [_ Hrow'].
    unfold steps_apply, steps_of in Hrow'. simpl in Hrow'.
    apply list_elem_of_filter in Hrow' as [_ Hrow'].
    apply elem_of_app in Hrow' as [Hrow'|Hrow'].
    + rewrite Forall_forall in Hdone. by apply Hdone.
    + apply list_elem_of_singleton in Hrow' as ->. done.
  - apply Forall_cons_1 in Hnofail as [_ Hnofail].
    by apply Forall_cons_1 in Hnofail as [? _].
  - apply Forall_cons_1 in Hnofail as [_ Hnofail].
    by apply Forall_cons_1 in Hnofail as [? _].
Qed.

(** X10. When every call of the runner succeeds, the run leaves one step
    row per step of the plan, in order, with the index, name and agent
    type of its step, each completed with its completion time set, and
    the execution completed. *)
Theorem X10_successful_run_persisted db steps :
  steps_of executionId db = [] ->
  let events := background_task executeAgentStep sql_bind executionId stepIds steps in
  (forall i step context,
      (i, step, context) ∈ invocations events ->
      runner_succeeded sql_bind (executeAgentStep i step context) = true) ->
  let final := db_after db (writes_of events) in
  map row_key (steps_of executionId final) = plan_keys steps /\
  Forall (fun row => st_status row = Completed /\ st_completed_at row = true)
    (steps_of executionId final) /\
  (forall row, row ∈ workflow_executions final -> ex_id row = executionId ->
               ex_status row = Completed /\ ex_completed_at row = true).
Proof.
  intros Hnew events Hall final. subst events final.
  pose proof (for_loop_Run executeAgentStep sql_bind executionId stepIds steps 0
                empty_context) as Hrun.
  unfold background_task in *. simpl in Hall.
  destruct (all_succeed_completes executeAgentStep sql_bind executionId stepIds steps 0
              empty_context Hall) as [before Heq].
  destruct (Run_completion _ _ _ _ _ _ Hrun before executionId
              [Broadcast (execution_update executionId Completed JUndefined)] Heq)
    as (_ & _ & _ & Hnofail & _).
  assert (Forall (fun w => step_failure w = None)
            (writes_of (for_loop executeAgentStep sql_bind executionId stepIds 0 steps
                          empty_context))) as Hnofail'.
  { rewrite Heq, writes_of_app. apply Forall_app. split; [done|]. by repeat constructor. }
  simpl. split_and!.
  - rewrite steps_of_after, Hnew, keys_after by done. simpl.
    apply (Run_created_keys 0 steps empty_context _ Hrun). done.
  - rewrite steps_of_after, Hnew.
    by apply (Run_all_completed 0 steps empty_context _ Hrun).
  - intros row. rewrite Heq, writes_of_app. simpl. rewrite db_after_app.
    apply completion_persisted.
Qed.
End RowProperties.

Section ResultProperties.
Variable executeAgentStep : nat -> WorkflowStep -> Context -> Completion JsVal.
Variable sql_bind : JsVal -> Completion SqlVal.
Variable executionId : Id.
Variable stepIds : nat -> Id.

Lemma ids_miss i rows :
  (forall j, (j < i)%nat -> stepIds j <> stepIds i) ->
  map st_id rows = map stepIds (seq 0 i) ->
  Forall (fun row => st_id row <> stepIds i) rows.
Proof.
  intros Hdistinct Hids. apply Forall_forall. intros row Hrow Heq.
  assert (st_id row ∈ map st_id rows) as Hin by (apply list_elem_of_fmap; eauto).
  rewrite Hids in Hin. apply list_elem_of_fmap in Hin as (j & Hj & Hseq).
  apply elem_of_seq in Hseq. apply (Hdistinct j); [lia|congruence].
Qed.

Lemma update_where_app {Row} (matches : Row -> bool) set (l1 l2 : list Row) :
  update_where matches set (l1 ++ l2)
  = update_where matches set l1 ++ update_where matches set l2.
Proof. apply map_app. Qed.

(** Inserting the row of iteration [i] and recording its outcome adds
    one row and leaves the earlier ones as they are. *)
Lemma steps_apply_iteration i rows step_name agent_type w :
  Forall (fun row => st_execution_id row = executionId) rows ->
  Forall (fun row => st_id row <> stepIds i) rows ->
  (exists status rj em, w = UpdateExecutionStep status rj em (stepIds i)) \/
  (exists em, w = UpdateExecutionStepFailed em (stepIds i)) ->
  exists row,
    steps_apply executionId
      (steps_apply executionId rows
         (InsertExecutionStep (stepIds i) executionId i step_name agent_type Running)) w
    = rows ++ [row] /\
    st_id row = stepIds i /\ st_execution_id row = executionId /\ st_step_index row = i /\
    st_completed_at row = true /\
    forall status rj em,
      w = UpdateExecutionStep status rj em (stepIds i) ->
      st_status row = status /\ st_result_json row = rj.
Proof.
  intros Hown Hmiss Hw.
  assert (steps_apply executionId rows
            (InsertExecutionStep (stepIds i) executionId i step_name agent_type Running)
          = rows ++ [{| st_id := stepIds i; st_execution_id := executionId;
                        st_step_index := i; st_name := step_name;
                        st_agent_type := agent_type; st_status := Running;
                        st_result_json := None; st_error_message := SqlNull;
                        st_started_at := true; st_completed_at := false |}]) as ->.
  { unfold steps_apply, steps_of. simpl.
    rewrite filter_app, filter_id by done. by rewrite filter_cons, decide_True. }
  unfold steps_apply, steps_of.
  destruct Hw as [(status & rj & em & ->)|(em & ->)]; cbn [db_apply execution_steps];
    rewrite filter_update_where by done;
    (rewrite filter_app, filter_id by done);
    rewrite filter_cons, decide_True by done; rewrite filter_nil;
    rewrite update_where_app; (rewrite update_where_miss by done);
    unfold update_where; simpl;
    rewrite bool_decide_eq_true_2 by done;
    eexists; (split; [reflexivity|]); simpl; split_and!; try done.
  by intros ? ? ? [= -> -> _].
Qed.

Lemma Run_results i steps context events :
  Run executionId stepIds i steps context events ->
  (forall j k, (j < k < i + length steps)%nat -> stepIds j <> stepIds k) ->
  forall rows,
    Forall (fun row => st_execution_id row = executionId) rows ->
    map st_id rows = map stepIds (seq 0 i) ->
    let final := foldl (steps_apply executionId) rows (writes_of events) in
    take i final = rows /\
    forall j R,
      (j, R) ∈ completions events ->
      exists row,
        final !! j = Some row /\
        st_id row = stepIds j /\ st_step_index row = j /\ st_status row = Completed /\
        st_result_json row = JSON_stringify R /\ st_completed_at row = true.
Proof.
  induction 1 as [i context|i step rest context result error em tail Htail IH
                 |i step rest context result error em|i step rest context fault];
    intros Hdistinct rows Hown Hids; simpl.
  - assert (length rows = i) as Hlen.
    { by rewrite <- (length_map st_id), Hids, length_map, length_seq. }
    unfold steps_apply, steps_of. simpl. rewrite filter_id by done. split.
    + by rewrite take_ge by lia.
    + intros j R Hin. by apply elem_of_nil in Hin.
  - assert (length rows = i) as Hlen.
    { by rewrite <- (length_map st_id), Hids, length_map, length_seq. }
    destruct (steps_apply_iteration i rows (name step) (agentType step)
                (UpdateExecutionStep Completed (JSON_stringify result) em (stepIds i)))
      as (row & -> & Hid & Hrow_own & Hidx & Hat & Hupd); [done| |left; by do 3 eexists|].
    { apply ids_miss; [|done]. intros j Hj. apply Hdistinct. simpl. lia. }
    destruct (Hupd _ _ _ eq_refl) as [Hstatus Hresult].
    destruct (IH (fun j k Hjk => Hdistinct j k ltac:(simpl; lia)) (rows ++ [row]))
      as [Htake Hdone].
    { apply Forall_app. split; [done|]. by constructor. }
    { rewrite map_app, Hids, seq_S, map_app. simpl. by rewrite Hid. }
    split.
    + replace i with (min i (S i)) at 1 by lia. rewrite <- take_take, Htake.
      by rewrite <- Hlen, take_app_length.
    + intros j R Hin. apply elem_of_cons in Hin as [Hhead|Hin].
      * injection Hhead as -> ->. exists row. split_and!; try done.
        rewrite <- (lookup_take_lt _ (S i)) by lia. rewrite Htake.
        by rewrite list_lookup_middle.
      * by apply Hdone.
  - assert (length rows = i) as Hlen.
    { by rewrite <- (length_map st_id), Hids, length_map, length_seq. }
    destruct (steps_apply_iteration i rows (name step) (agentType step)
                (UpdateExecutionStep Failed (JSON_stringify result) em (stepIds i)))
      as (row & -> & Hid & Hrow_own & _); [done| |left; by do 3 eexists|].
    { apply ids_miss; [|done]. intros j Hj. apply Hdistinct. simpl. lia. }
    unfold steps_apply, steps_of. simpl. rewrite filter_app, filter_id by done.
    rewrite filter_cons, decide_True by done. rewrite filter_nil. split.
    + by rewrite <- Hlen, take_app_length.
    + intros j R Hin. by apply elem_of_nil in Hin.
  - assert (length rows = i) as Hlen.
    { by rewrite <- (length_map st_id), Hids, length_map, length_seq. }
    destruct (steps_apply_iteration i rows (name step) (agentType step)
                (UpdateExecutionStepFailed (SqlText (message fault)) (stepIds i)))
      as (row & -> & Hid & Hrow_own & _); [done| |right; by eexists|].
    { apply ids_miss; [|done]. intros j Hj. apply Hdistinct. simpl. lia. }
    unfold steps_apply, steps_of. simpl. rewrite filter_app, filter_id by done.
    rewrite filter_cons, decide_True by done. rewrite filter_nil. split.
    + by rewrite <- Hlen, take_app_length.
    + intros j R Hin. by apply elem_of_nil in Hin.
Qed.

(** X11. What a step returned is what its row holds. For an execution
    that starts with no step rows and whose steps get distinct
    identifiers, every step reported as completed with a result has, once
    the task has ended, its row at the position of its index: under its
    own identifier, completed, with the completion time set and the JSON
    text of that result, NULL standing for an absent result. *)
Theorem X11_results_persisted db steps j R :
  steps_of executionId db = [] ->
  NoDup (map stepIds (seq 0 (length steps))) ->
  let events := background_task executeAgentStep sql_bind executionId stepIds steps in
  (j, R) ∈ completions events ->
  exists row,
    steps_of executionId (db_after db (writes_of events)) !! j = Some row /\
    st_id row = stepIds j /\ st_step_index row = j /\ st_status row = Completed /\
    st_result_json row = JSON_stringify R /\ st_completed_at row = true.
Proof.
  intros Hnew Hdistinct events Hdone. subst events.
  rewrite steps_of_after, Hnew. unfold background_task in *. simpl in *.
  apply (Run_results 0 steps empty_context _
           (for_loop_Run executeAgentStep sql_bind executionId stepIds steps 0 empty_context));
    try done.
  intros a b Hab Heq. simpl in Hab.
  assert (a = b); [|lia].
  eapply (NoDup_lookup _ a b (stepIds a) Hdistinct).
  - rewrite list_lookup_fmap, lookup_seq_lt by lia. done.
  - rewrite list_lookup_fmap, lookup_seq_lt by lia. simpl. by rewrite Heq.
Qed.
End ResultProperties.

Section DetailProperties.
Variable executeAgentStep : nat -> WorkflowStep -> Context -> Completion JsVal.
Variable sql_bind : JsVal -> Completion SqlVal.

Lemma order_by_step_index_sorted rows : forall a,
  map st_step_index rows = seq a (length rows) ->
  order_by_step_index rows = rows.
Proof.
  unfold order_by_step_index.
  induction rows as [|row rows IH]; intros a Hidx; [done|].
  simpl in *. injection Hidx as Hrow Hrest. rewrite (IH (S a)) by done.
  destruct rows as [|next rows]; [done|].
  simpl in *. injection Hrest as Hnext _.
  rewrite Hrow, Hnext. by rewrite (leb_correct a (S a)) by lia.
Qed.

Lemma find_update_new (rows : list ExecutionRow) (new : ExecutionRow) id set :
  id ∉ map ex_id rows -> ex_id new = id ->
  find (fun row => bool_decide (ex_id row = id))
    (update_where (fun row => bool_decide (ex_id row = id)) set (rows ++ [new]))
  = (if bool_decide (ex_id (set new) = id) then Some (set new) else None).
Proof.
  intros Hnew Hid. unfold update_where.
  induction rows as [|row rows IH]; simpl.
  - by rewrite (bool_decide_eq_true_2 _ Hid).
  - apply not_elem_of_cons in Hnew as [Hne Hnew].
    rewrite (bool_decide_eq_false_2 (ex_id row = id)) by done.
    rewrite (bool_decide_eq_false_2 (ex_id row = id)) by done.
    by apply IH.
Qed.

Lemma detail_of_run db workflowId executionId stepIds steps events :
  Run executionId stepIds 0 steps empty_context events ->
  steps_of executionId db = [] ->
  executionId ∉ map ex_id (workflow_executions db) ->
  exists row,
    get_execution
      (db_after db (InsertExecution executionId workflowId Running :: writes_of events))
      executionId
    = res_json (ExecutionDetail (Some row)
        (steps_of executionId
           (db_after db
              (InsertExecution executionId workflowId Running :: writes_of events)))) /\
    ex_id row = executionId /\ ex_workflow_id row = workflowId /\
    is_terminal (ex_status row) = true /\ ex_completed_at row = true /\
    map st_step_index
      (steps_of executionId
         (db_after db (InsertExecution executionId workflowId Running :: writes_of events)))
    = seq 0 (length
        (steps_of executionId
           (db_after db
              (InsertExecution executionId workflowId Running :: writes_of events)))).
Proof.
  intros Hrun Hnone Hnew.
  set (db1 := db_apply db (InsertExecution executionId workflowId Running)).
  assert (db_after db (InsertExecution executionId workflowId Running :: writes_of events)
          = db_after db1 (writes_of events)) as -> by done.
  assert (steps_of executionId db1 = []) as Hnone1 by done.
  (* the step rows *)
  destruct (Run_observed executionId stepIds 0 _ _ _ Hrun [] (writes_of events))
    as (_ & _ & (k & _ & Hidx) & _); [by split_and!|done|].
  rewrite <- Hnone1, <- steps_of_after in Hidx.
  assert (map st_step_index (steps_of executionId (db_after db1 (writes_of events)))
          = seq 0 (length (steps_of executionId (db_after db1 (writes_of events)))))
    as Hsorted.
  { rewrite Hidx. f_equal. by rewrite <- (length_map st_step_index), Hidx, length_seq. }
  unfold get_execution.
  fold (steps_of executionId (db_after db1 (writes_of events))).
  rewrite (order_by_step_index_sorted _ 0 Hsorted).
  (* the execution row *)
  destruct (Run_ends executionId stepIds 0 _ _ _ Hrun)
    as (before & w & status & error & Heq & Hw & Hstatus & _ & Hkind).
  assert (workflow_executions (db_after db1 (writes_of events))
          = workflow_executions (db_apply db1 w)) as ->.
  { rewrite Heq, writes_of_app, db_after_app. simpl.
    pose proof (executions_untouched (writes_of before) db1 Hkind) as Hsame.
    change (db_after (db_after db1 (writes_of before)) [w])
      with (db_apply (db_after db1 (writes_of before)) w).
    destruct w; try discriminate; simpl; by rewrite Hsame. }
  destruct w; try discriminate; simpl in Hw; injection Hw as -> <-; simpl;
    rewrite find_update_new by done; simpl;
    rewrite bool_decide_eq_true_2 by done;
    (eexists; split_and!; [reflexivity|done..]).
Qed.

(** X12. The identifier in the response leads back to the execution. In
    a referential store, for an accepted request whose execution
    identifier is new, the detail of that identifier, asked once the
    background task has ended, gives the execution of the workflow
    asked, in a terminal status with its completion time set, and its
    step rows, all of them, in index order from 0. *)
Theorem X12_detail_after_run db workflowId executionId stepIds :
  workflowId ∈ map wf_id (workflows db) ->
  referential db ->
  executionId ∉ map ex_id (workflow_executions db) ->
  let final :=
    db_after db
      (writes_of (snd (post_executions_execute executeAgentStep sql_bind db workflowId
                         executionId stepIds))) in
  exists row,
    get_execution final executionId
    = res_json (ExecutionDetail (Some row) (steps_of executionId final)) /\
    ex_id row = executionId /\ ex_workflow_id row = workflowId /\
    is_terminal (ex_status row) = true /\ ex_completed_at row = true /\
    map st_step_index (steps_of executionId final)
    = seq 0 (length (steps_of executionId final)).
Proof.
  intros Hknown Href Hnew final. subst final. unfold post_executions_execute.
  apply select_workflow_found in Hknown as [workflow ->]. simpl.
  apply (detail_of_run db workflowId executionId stepIds (wf_steps_json workflow)).
  - apply for_loop_Run.
  - unfold steps_of. apply filter_none. eapply Forall_impl; [exact Href|].
    intros r Hr Hid. simpl in Hr. by rewrite Hid in Hr.
  - done.
Qed.
End DetailProperties.

Section AnalyticsProperties.
Variable executeAgentStep : nat -> WorkflowStep -> Context -> Completion JsVal.
Variable sql_bind : JsVal -> Completion SqlVal.
Variable planner : nat -> JsVal -> Settled Thrown WorkflowPlan.

Lemma Math_round_or_zero q : Math_round (or_zero (Some q)) = Math_round q.
Proof.
  unfold Math_round. apply Qfloor_comp. by rewrite or_zero_Some.
Qed.

Lemma rate_bounds (c n : nat) :
  (c <= n)%nat -> (0 < n)%nat ->
  (0 <= inject_Z (Z.of_nat c) * 100 / inject_Z (Z.of_nat n) <= 100)%Q.
Proof.
  intros Hc Hn.
  assert (0 < inject_Z (Z.of_nat n))%Q as Hpos.
  { change 0%Q with (inject_Z 0). rewrite <- Zlt_Qlt. lia. }
  split.
  - apply Qle_shift_div_l; [done|]. rewrite Qmult_0_l.
    change 100%Q with (inject_Z 100). rewrite <- inject_Z_mult.
    change 0%Q with (inject_Z 0). rewrite <- Zle_Qle. lia.
  - apply Qle_shift_div_r; [done|].
    change 100%Q with (inject_Z 100). rewrite <- !inject_Z_mult.
    rewrite <- Zle_Qle. lia.
Qed.

(** X13. The success rate of the overview is a percentage: an integer
    from 0 to 100, whatever is stored. It is 0 when no execution is
    completed, and 100 when there are executions and all are
    completed. *)
Theorem X13_success_rate_percentage db :
  (0 <= successRate (analytics_overview db) <= 100)%Z /\
  (count_status Completed (workflow_executions db) = 0%nat ->
   successRate (analytics_overview db) = 0%Z) /\
  (workflow_executions db <> [] ->
   count_status Completed (workflow_executions db) = length (workflow_executions db) ->
   successRate (analytics_overview db) = 100%Z).
Proof.
  unfold analytics_overview. simpl.
  set (rows := workflow_executions db).
  assert (count_status Completed rows <= length rows)%nat as Hle
    by apply length_filter.
  unfold select_rate.
  destruct (Nat.eqb_spec (length rows) 0) as [Hempty|Hsome].
  - split_and!; try done. intros Hrows. by destruct rows.
  - rewrite Math_round_or_zero.
    destruct (rate_bounds (count_status Completed rows) (length rows)) as [Hlo Hhi];
      [done|lia|].
    assert (0 < inject_Z (Z.of_nat (length rows)))%Q as Hpos.
    { change 0%Q with (inject_Z 0). rewrite <- Zlt_Qlt. lia. }
    split_and!.
    + change 0%Z with (Qfloor (1 # 2)). unfold Math_round.
      apply Qfloor_resp_le.
      by apply (Qplus_le_compat 0 _ (1 # 2) (1 # 2)).
    + change 100%Z with (Qfloor (100 + (1 # 2))). unfold Math_round.
      apply Qfloor_resp_le. by apply Qplus_le_compat.
    + intros ->. unfold Math_round. transitivity (Qfloor (1 # 2)); [|done].
      apply Qfloor_comp. simpl. field. lra.
    + intros _ ->. unfold Math_round. transitivity (Qfloor (100 + (1 # 2))); [|done].
      apply Qfloor_comp. field. lra.
Qed.

Lemma executions_length ws : forall db,
  length (workflow_executions (db_after db ws))
  = (length (workflow_executions db) + length (omap created_execution ws))%nat.
Proof.
  unfold db_after.
  induction ws as [|w ws IH]; intros db; simpl; [lia|].
  rewrite IH.
  destruct w; simpl; unfold update_where; rewrite ?length_app, ?length_map; simpl;
    change (list_omap DbWrite (Id * Id * Status)%type created_execution ws)
      with (omap created_execution ws); lia.
Qed.

Lemma workflows_length ws : forall db,
  length (workflows (db_after db ws))
  = (length (workflows db) + length (filter (fun w => writes_workflow w = true) ws))%nat.
Proof.
  unfold db_after.
  induction ws as [|w ws IH]; intros db; simpl; [lia|].
  rewrite IH.
  destruct w; simpl; rewrite ?filter_cons, ?length_app; simpl; lia.
Qed.

Lemma execute_writes db workflowId executionId stepIds :
  writes_of (snd (post_executions_execute executeAgentStep sql_bind db workflowId
                    executionId stepIds))
  = match select_workflow db workflowId with
    | None => []
    | Some workflow =>
        InsertExecution executionId workflowId Running
          :: writes_of (for_loop executeAgentStep sql_bind executionId stepIds 0
                          (wf_steps_json workflow) empty_context)
    end.
Proof.
  unfold post_executions_execute. by destruct (select_workflow db workflowId).
Qed.

Lemma Run_inserts_nothing executionId stepIds i steps context events :
  Run executionId stepIds i steps context events ->
  omap created_execution (writes_of events) = [] /\
  filter (fun w => writes_workflow w = true) (writes_of events) = [].
Proof.
  intros Hrun. apply Run_creates_no_execution in Hrun.
  induction Hrun as [|w ws [Hw Hkind] _ [IH1 IH2]]; [done|]. split.
  - change (omap created_execution (w :: ws))
      with (match created_execution w with
            | Some x => x :: omap created_execution ws
            | None => omap created_execution ws
            end).
    by rewrite Hw.
  - rewrite filter_cons, decide_False; [done|]. by rewrite Hkind.
Qed.

(** X14. The totals of the overview follow the requests served. A
    request to execute, once its background task has ended, adds one to
    the executions when it was accepted and nothing when it was not, and
    leaves the workflows as they were; a request to create adds one to
    the workflows when the planner gave a plan and the driver bound the
    prompt, and nothing when the planner threw or the driver refused the
    prompt, and leaves the executions as they were. *)
Theorem X14_totals_follow_requests db workflowId executionId stepIds call prompt id :
  let executed :=
    db_after db
      (writes_of (snd (post_executions_execute executeAgentStep sql_bind db workflowId
                         executionId stepIds))) in
  let created :=
    db_after db
      (writes_of (fst (post_workflows_create planner sql_bind call prompt id))) in
  totalExecutions (analytics_overview executed)
  = (totalExecutions (analytics_overview db)
     + (if bool_decide (workflowId ∈ map wf_id (workflows db)) then 1 else 0))%nat /\
  totalWorkflows (analytics_overview executed) = totalWorkflows (analytics_overview db) /\
  totalWorkflows (analytics_overview created)
  = (totalWorkflows (analytics_overview db)
     + (match planner call prompt, sql_bind prompt with
        | Resolved _, Normal _ => 1
        | _, _ => 0
        end))%nat /\
  totalExecutions (analytics_overview created) = totalExecutions (analytics_overview db).
Proof.
  intros executed created. subst executed created. simpl.
  rewrite !executions_length, !workflows_length, execute_writes.
  assert (match planner call prompt, sql_bind prompt with
          | Resolved _, Normal _ => 1
          | _, _ => 0
          end
          = length (filter (fun w => writes_workflow w = true)
                      (writes_of (fst (post_workflows_create planner sql_bind call prompt
                                         id))))
          /\ omap created_execution
               (writes_of (fst (post_workflows_create planner sql_bind call prompt id)))
             = [])
    as [-> ->].
  { unfold post_workflows_create, create_catch.
    destruct (planner call prompt) as [[fault|p]|plan]; simpl; [done| |].
    - by destruct p.
    - by destruct (sql_bind prompt). }
  case_bool_decide as Hknown.
  - apply select_workflow_found in Hknown as [workflow ->].
    destruct (Run_inserts_nothing executionId stepIds 0 _ _ _
                (for_loop_Run executeAgentStep sql_bind executionId stepIds
                   (wf_steps_json workflow) 0 empty_context)) as [Hnone Hkind].
    rewrite filter_cons, decide_False by done. rewrite Hkind.
    change (omap created_execution (InsertExecution executionId workflowId Running :: ?ws))
      with ((executionId, workflowId, Running) :: omap created_execution ws).
    rewrite Hnone. simpl. split_and!; try done; lia.
  - destruct (select_workflow db workflowId) as [workflow|] eqn:Hfound.
    + exfalso. apply Hknown. apply select_workflow_found. by eexists.
    + simpl. split_and!; try done; lia.
Qed.
End AnalyticsProperties.

Section ListingProperties.
Variable order_by_started_at :
  list (ExecutionRow * string) -> list (ExecutionRow * string).
Hypothesis order_permutes : forall rows, order_by_started_at rows ≡ₚ rows.

Lemma filter_key_unique (rows : list WorkflowRow) id :
  NoDup (map wf_id rows) -> id ∈ map wf_id rows ->
  exists row, filter (fun w => wf_id w = id) rows = [row].
Proof.
  induction rows as [|row rows IH]; intros Hdistinct Hin; simpl in *.
  - by apply elem_of_nil in Hin.
  - apply NoDup_cons in Hdistinct as [Hrow Hdistinct].
    rewrite filter_cons. destruct (decide (wf_id row = id)) as [Hid|Hid].
    + exists row. f_equal. apply filter_none.
      apply Forall_forall. intros w Hw Heq. apply Hrow.
      rewrite Hid, <- Heq. apply list_elem_of_fmap. by exists w.
    + apply elem_of_cons in Hin as [Hin|Hin]; [congruence|]. by apply IH.
Qed.

Lemma join_workflows_joined db e n :
  (e, n) ∈ join_workflows db <->
  e ∈ workflow_executions db /\
  exists w, w ∈ workflows db /\ wf_id w = ex_workflow_id e /\ wf_name w = n.
Proof.
  unfold join_workflows. rewrite list_elem_of_In, in_flat_map. split.
  - intros (e' & He' & Hin).
    apply list_elem_of_In, list_elem_of_fmap in Hin as (w & Heq & Hw).
    injection Heq as -> ->.
    apply list_elem_of_filter in Hw as [Hid Hw].
    split; [by apply list_elem_of_In|]. by exists w.
  - intros (He & w & Hw & Hid & Hname). exists e.
    split; [by apply list_elem_of_In|].
    apply list_elem_of_In, list_elem_of_fmap. exists w.
    split; [by rewrite Hname|]. by apply list_elem_of_filter.
Qed.

Lemma join_workflows_complete db :
  NoDup (map wf_id (workflows db)) ->
  executions_reference_workflows db ->
  map fst (join_workflows db) = workflow_executions db.
Proof.
  unfold join_workflows, executions_reference_workflows. intros Hdistinct.
  induction 1 as [|e rows He _ IH]; [done|].
  simpl. rewrite map_app, IH.
  destruct (filter_key_unique _ _ Hdistinct He) as [w ->]. done.
Qed.

(** X15. The listing of executions is the join it is written as. Every
    entry is a stored execution with the name of the stored workflow it
    belongs to; an execution whose workflow is not stored is not listed;
    and when workflow identifiers are distinct and every execution
    belongs to a stored workflow, the listing has every stored execution
    once and no more. *)
Theorem X15_listing_is_join db :
  (forall e n,
      (e, n) ∈ get_executions order_by_started_at db ->
      e ∈ workflow_executions db /\
      exists w, w ∈ workflows db /\ wf_id w = ex_workflow_id e /\ wf_name w = n) /\
  (forall e,
      ex_workflow_id e ∉ map wf_id (workflows db) ->
      e ∉ map fst (get_executions order_by_started_at db)) /\
  (NoDup (map wf_id (workflows db)) ->
   executions_reference_workflows db ->
   map fst (get_executions order_by_started_at db) ≡ₚ workflow_executions db).
Proof.
  unfold get_executions. split_and!.
  - intros e n Hin. rewrite order_permutes in Hin. by apply join_workflows_joined.
  - intros e Hnone Hin. apply list_elem_of_fmap in Hin as ([e' n] & -> & Hin).
    rewrite order_permutes in Hin.
    apply join_workflows_joined in Hin as (_ & w & Hw & Hid & _).
    apply Hnone. simpl. rewrite <- Hid. apply list_elem_of_fmap. by exists w.
  - intros Hdistinct Href.
    rewrite <- (join_workflows_complete db Hdistinct Href).
    apply fmap_Permutation, order_permutes.
Qed.
End ListingProperties.

Section NotifierProperties.

Lemma received_broadcast readyState (clients : list (Id * Socket)) message ws :
  received ws (broadcast readyState clients message)
  = if bool_decide (readyState ws = OPEN)
    then replicate (length (filter (fun entry => snd entry = ws) clients)) message
    else [].
Proof.
  unfold received, broadcast.
  induction clients as [|[id ws'] clients IH].
  - by case_bool_decide.
  - change (omap ?f ((id, ws') :: clients))
      with (match f (id, ws') with
            | Some d => d :: omap f clients
            | None => omap f clients
            end).
    rewrite (filter_cons (fun entry : Id * Socket => snd entry = ws)).
    cbn beta. cbn [snd].
    destruct (decide (ws' = ws)) as [->|Hne].
    + case_bool_decide as Hopen.
      * rewrite filter_cons, decide_True by done.
        cbn [map length replicate snd]. by rewrite IH.
      * by rewrite IH.
    + destruct (bool_decide (readyState ws' = OPEN)); [|exact IH].
      rewrite filter_cons, decide_False by done. exact IH.
Qed.

Lemma received_app ws (l k : list (Socket * Message)) :
  received ws (l ++ k) = received ws l ++ received ws k.
Proof. unfold received. by rewrite filter_app, map_app. Qed.

(** X16. What one [broadcast] does, and what closing a connection
    undoes. Every send goes to a socket that is registered and open, and
    carries the message; every registered open socket is sent it;
    registering a connection under a new identifier and deleting it at
    its close leaves the registry as it was; and once a connection is
    deleted, its socket, registered under that identifier only, is sent
    nothing. *)
Theorem X16_broadcast_reaches_open_clients readyState clients message :
  (forall ws m,
      (ws, m) ∈ broadcast readyState clients message <->
      m = message /\ readyState ws = OPEN /\ ws ∈ map snd clients) /\
  (forall id ws,
      id ∉ map fst clients -> clients_delete id (clients_set id ws clients) = clients) /\
  (forall id ws,
      (forall entry, entry ∈ clients -> snd entry = ws -> fst entry = id) ->
      received ws (broadcast readyState (clients_delete id clients) message) = []).
Proof.
  split_and!.
  - intros ws m. unfold broadcast. rewrite list_elem_of_omap. split.
    + intros ([id ws'] & Hin & Hsend). simpl in Hsend.
      case_bool_decide as Hopen; [|done]. injection Hsend as -> ->.
      split_and!; [done..|]. apply list_elem_of_fmap. by exists (id, ws).
    + intros (-> & Hopen & Hin).
      apply list_elem_of_fmap in Hin as ([id ws'] & -> & Hin).
      exists (id, ws'). split; [done|]. simpl. by rewrite bool_decide_eq_true_2.
  - intros id ws Hnew. unfold clients_set, clients_delete, Clients in *.
    rewrite bool_decide_eq_false_2 by done. cbn iota.
    rewrite filter_app, filter_cons, decide_False by (simpl; auto).
    rewrite filter_nil, app_nil_r. apply filter_id.
    apply Forall_forall. intros entry Hentry Hid. apply Hnew.
    rewrite <- Hid. apply list_elem_of_fmap. by exists entry.
  - intros id ws Honly. rewrite received_broadcast. unfold clients_delete, Clients in *.
    case_bool_decide; [|done].
    rewrite (filter_none (fun entry : Id * Socket => snd entry = ws)); [done|].
    apply Forall_forall. intros entry Hentry Hws.
    apply list_elem_of_filter in Hentry as [Hid Hentry]. by apply Hid, Honly.
Qed.

Lemma received_sends ws messages : forall readyState clients,
  (forall k, (k < length messages)%nat ->
     readyState k ws = OPEN /\
     length (filter (fun entry => snd entry = ws) (clients k)) = 1%nat) ->
  received ws
    (mjoin (imap (fun k message => broadcast (readyState k) (clients k) message) messages))
  = messages.
Proof.
  induction messages as [|message messages IH]; intros readyState clients Hopen; [done|].
  change (mjoin (imap ?f (message :: messages)))
    with (f 0%nat message ++ mjoin (imap (f ∘ S) messages)).
  cbn beta. rewrite received_app, received_broadcast.
  destruct (Hopen 0%nat) as [-> ->]; [simpl; lia|].
  rewrite bool_decide_eq_true_2 by done. cbn [replicate app]. f_equal.
  apply (IH (fun k => readyState (S k)) (fun k => clients (S k))).
  intros k Hk. apply Hopen. simpl. lia.
Qed.

Lemma received_sends_closed ws messages : forall readyState clients,
  (forall k, (k < length messages)%nat ->
     readyState k ws <> OPEN \/ ws ∉ map snd (clients k)) ->
  received ws
    (mjoin (imap (fun k message => broadcast (readyState k) (clients k) message) messages))
  = [].
Proof.
  induction messages as [|message messages IH]; intros readyState clients Hclosed; [done|].
  change (mjoin (imap ?f (message :: messages)))
    with (f 0%nat message ++ mjoin (imap (f ∘ S) messages)).
  cbn beta. rewrite received_app, received_broadcast.
  assert (received ws
            (mjoin (imap ((fun k message => broadcast (readyState k) (clients k) message)
                            ∘ S) messages)) = []) as ->.
  { apply (IH (fun k => readyState (S k)) (fun k => clients (S k))).
    intros k Hk. apply Hclosed. simpl. lia. }
  rewrite app_nil_r. case_bool_decide as Hopen; [|done].
  destruct (Hclosed 0%nat) as [Hstate|Hout]; [simpl; lia|done|].
  rewrite (filter_none (fun entry : Id * Socket => snd entry = ws)); [done|].
  apply Forall_forall. intros entry Hentry Hws. apply Hout.
  rewrite <- Hws. apply list_elem_of_fmap. by exists entry.
Qed.

(** X17. A client that stays connected sees the whole run. A socket
    that every broadcast of a task finds open and registered once is
    sent all the messages of the task, each once, in the order the task
    emits them; a socket that every broadcast finds not open, or not
    registered, is sent nothing. *)
Theorem X17_connected_client_stream readyState clients events ws :
  ((forall k, (k < length (messages_of events))%nat ->
      readyState k ws = OPEN /\
      length (filter (fun entry => snd entry = ws) (clients k)) = 1%nat) ->
   received ws (sends readyState clients events) = messages_of events) /\
  ((forall k, (k < length (messages_of events))%nat ->
      readyState k ws <> OPEN \/ ws ∉ map snd (clients k)) ->
   received ws (sends readyState clients events) = []).
Proof.
  unfold sends. split.
  - apply received_sends.
  - apply received_sends_closed.
Qed.
End NotifierProperties.

Section DashboardProperties.
Variable executeAgentStep : nat -> WorkflowStep -> Context -> Completion JsVal.
Variable sql_bind : JsVal -> Completion SqlVal.

Lemma find_execution_apply db w id row :
  created_execution w = None ->
  find (fun row => bool_decide (ex_id row = id)) (workflow_executions db) = Some row ->
  exists row',
    find (fun row => bool_decide (ex_id row = id)) (workflow_executions (db_apply db w))
    = Some row' /\
    ex_id row' = ex_id row /\ ex_workflow_id row' = ex_workflow_id row.
Proof.
  intros Hw Hfind.
  assert (forall id' set,
            (forall r, ex_id (set r) = ex_id r /\ ex_workflow_id (set r) = ex_workflow_id r) ->
            exists row',
              find (fun row => bool_decide (ex_id row = id))
                (update_where (fun row => bool_decide (ex_id row = id')) set
                   (workflow_executions db))
              = Some row' /\
              ex_id row' = ex_id row /\ ex_workflow_id row' = ex_workflow_id row) as Hupdate.
  { intros id' set Hset. unfold update_where.
    induction (workflow_executions db) as [|r rows IH]; [done|].
    simpl in *. destruct (bool_decide (ex_id r = id')) eqn:Hr.
    - destruct (Hset r) as [Hid Hworkflow]. rewrite Hid.
      destruct (bool_decide (ex_id r = id)); [|by apply IH].
      injection Hfind as <-. by eexists.
    - destruct (bool_decide (ex_id r = id)); [|by apply IH].
      injection Hfind as <-. by eexists. }
  destruct w; try discriminate; simpl; try (by eexists); by apply Hupdate.
Qed.

Lemma find_execution_after ws : forall db id row,
  Forall (fun w => created_execution w = None) ws ->
  find (fun row => bool_decide (ex_id row = id)) (workflow_executions db) = Some row ->
  exists row',
    find (fun row => bool_decide (ex_id row = id)) (workflow_executions (db_after db ws))
    = Some row' /\
    ex_id row' = ex_id row /\ ex_workflow_id row' = ex_workflow_id row.
Proof.
  unfold db_after.
  induction ws as [|w ws IH]; intros db id row Hws Hfind; [by eexists|].
  apply Forall_cons_1 in Hws as [Hw Hws]. simpl.
  destruct (find_execution_apply db w id row Hw Hfind) as (row1 & Hfind1 & Hid1 & Hwf1).
  destruct (IH _ _ _ Hws Hfind1) as (row2 & Hfind2 & Hid2 & Hwf2).
  exists row2. split_and!; [done|congruence..].
Qed.

Lemma find_new (rows : list ExecutionRow) (new : ExecutionRow) :
  ex_id new ∉ map ex_id rows ->
  find (fun row => bool_decide (ex_id row = ex_id new)) (rows ++ [new]) = Some new.
Proof.
  induction rows as [|row rows IH]; intros Hnew; simpl.
  - by rewrite bool_decide_eq_true_2.
  - apply not_elem_of_cons in Hnew as [Hne Hnew].
    rewrite bool_decide_eq_false_2 by done. by apply IH.
Qed.

Lemma detail_of_prefix db workflowId executionId stepIds steps events ws :
  Run executionId stepIds 0 steps empty_context events ->
  steps_of executionId db = [] ->
  executionId ∉ map ex_id (workflow_executions db) ->
  ws `prefix_of` writes_of events ->
  exists row rows,
    get_execution (db_after db (InsertExecution executionId workflowId Running :: ws))
      executionId
    = res_json (ExecutionDetail (Some row) rows) /\
    ex_id row = executionId /\ ex_workflow_id row = workflowId /\
    rows = steps_of executionId
             (db_after db (InsertExecution executionId workflowId Running :: ws)) /\
    sequential (length steps) rows.
Proof.
  intros Hrun Hnone Hnew Hws.
  set (db1 := db_apply db (InsertExecution executionId workflowId Running)).
  assert (db_after db (InsertExecution executionId workflowId Running :: ws)
          = db_after db1 ws) as -> by done.
  assert (steps_of executionId db1 = []) as Hnone1 by done.
  destruct (Run_observed executionId stepIds 0 _ _ _ Hrun [] ws)
    as (_ & _ & Hseq); [by split_and!|done|].
  rewrite <- Hnone1, <- steps_of_after in Hseq. simpl in Hseq.
  pose proof Hseq as ((k & _ & Hidx) & _).
  assert (map st_step_index (steps_of executionId (db_after db1 ws))
          = seq 0 (length (steps_of executionId (db_after db1 ws)))) as Hsorted.
  { rewrite Hidx. f_equal. by rewrite <- (length_map st_step_index), Hidx, length_seq. }
  unfold get_execution. fold (steps_of executionId (db_after db1 ws)).
  rewrite (order_by_step_index_sorted _ 0 Hsorted).
  destruct (find_execution_after ws db1 executionId
              {| ex_id := executionId; ex_workflow_id := workflowId; ex_status := Running;
                 ex_completed_at := false; ex_error_message := SqlNull |})
    as (row & -> & Hid & Hworkflow).
  - destruct Hws as [rest Hrest].
    pose proof (Run_creates_no_execution _ _ _ _ _ _ Hrun) as Hkind.
    rewrite Hrest in Hkind. apply Forall_app in Hkind as [Hkind _].
    eapply Forall_impl; [exact Hkind|]. by intros w [? _].
  - by apply (find_new (workflow_executions db)
                {| ex_id := executionId; ex_workflow_id := workflowId;
                   ex_status := Running; ex_completed_at := false;
                   ex_error_message := SqlNull |}).
  - by exists row, (steps_of executionId (db_after db1 ws)).
Qed.

(** X18. What the dashboard selects after a request to execute. It asks
    the detail of the identifier in the response whatever the status of
    the response. In a referential store, with a new execution
    identifier: for a workflow that is not stored the response is the
    404, the identifier read from it is undefined, and the selection is
    the blank detail, no execution fields and no steps; for a stored
    workflow, at whatever point of the background task the detail is
    asked, the selection is the execution just started, of the workflow
    asked, with the step rows created so far in index order. *)
Theorem X18_dashboard_selection db workflowId executionId stepIds ws :
  referential db ->
  executionId ∉ map ex_id (workflow_executions db) ->
  "undefined" ∉ map ex_id (workflow_executions db) ->
  let outcome :=
    post_executions_execute executeAgentStep sql_bind db workflowId executionId stepIds in
  take 1 (writes_of (snd outcome)) `prefix_of` ws ->
  ws `prefix_of` writes_of (snd outcome) ->
  let selection := handleExecute (fst outcome) (db_after db ws) in
  (workflowId ∉ map wf_id (workflows db) -> selection = ExecutionDetail None []) /\
  (workflowId ∈ map wf_id (workflows db) ->
   exists row rows,
     selection = ExecutionDetail (Some row) rows /\
     ex_id row = executionId /\ ex_workflow_id row = workflowId /\
     rows = steps_of executionId (db_after db ws) /\
     exists k, map st_step_index rows = seq 0 k).
Proof.
  intros Href Hnew Hundefined outcome Hfirst Hws selection.
  subst outcome selection. unfold handleExecute, fetchExecutionDetails.
  unfold post_executions_execute in *.
  destruct (select_workflow db workflowId) as [workflow|] eqn:Hfound.
  - split.
    + intros Hunknown. exfalso. apply Hunknown. apply select_workflow_found. by eexists.
    + intros _. cbn [fst snd] in *.
      change (writes_of (Db (InsertExecution executionId workflowId Running)
                           :: background_task executeAgentStep sql_bind executionId stepIds
                                (wf_steps_json workflow)))
        with (InsertExecution executionId workflowId Running
                :: writes_of (for_loop executeAgentStep sql_bind executionId stepIds 0
                                (wf_steps_json workflow) empty_context)) in *.
      cbn [take] in Hfirst.
      destruct ws as [|w ws]; [by apply prefix_nil_inv in Hfirst|].
      apply prefix_cons_inv_1 in Hfirst as <-.
      apply prefix_cons_inv_2 in Hws.
      destruct (detail_of_prefix db workflowId executionId stepIds (wf_steps_json workflow)
                  _ ws (for_loop_Run executeAgentStep sql_bind executionId stepIds
                          (wf_steps_json workflow) 0 empty_context))
        as (row & rows & Hdetail & Hid & Hworkflow & Hrows & (k & _ & Hidx) & _);
        [|done..|].
      * unfold steps_of. apply filter_none. eapply Forall_impl; [exact Href|].
        intros r Hr Hrid. simpl in Hr. by rewrite Hrid in Hr.
      * exists row, rows. unfold handleExecute_detail_id. cbn [body res_json].
        rewrite Hdetail. split_and!; try done. by exists k.
  - split; [|intros Hknown; apply select_workflow_found in Hknown as [? ?]; congruence].
    intros _. cbn [fst snd] in *. apply prefix_nil_inv in Hws as ->.
    unfold handleExecute_detail_id. cbn [body].
    unfold get_execution, db_after. cbn [foldl].
    rewrite (find_none_not_in ex_id) by done.
    rewrite filter_none; [done|].
    eapply Forall_impl; [exact Href|]. intros r Hr Hrid. simpl in Hr.
    by rewrite Hrid in Hr.
Qed.
End DashboardProperties.

Section IsolationProperties.
Variable executeAgentStep : nat -> WorkflowStep -> Context -> Completion JsVal.
Variable sql_bind : JsVal -> Completion SqlVal.

Lemma update_where_none {Row} (matches : Row -> bool) set (rows : list Row) :
  Forall (fun row => matches row = false) rows ->
  update_where matches set rows = rows.
Proof.
  intros Hnone. unfold update_where.
  rewrite <- (map_id rows) at 2. apply map_ext_Forall.
  eapply Forall_impl; [exact Hnone|]. intros row Hrow. simpl. by rewrite Hrow.
Qed.

Lemma Run_issued executionId stepIds i steps context events :
  Run executionId stepIds i steps context events ->
  Forall (issued_by executionId stepIds) (writes_of events).
Proof.
  induction 1; simpl; repeat constructor; simpl; eauto.
Qed.

Lemma other_executions_apply executionId stepIds db w :
  issued_by executionId stepIds w ->
  other_executions executionId (db_apply db w) = other_executions executionId db.
Proof.
  unfold other_executions. intros Hw.
  destruct w; simpl in *; try done.
  - rewrite filter_app, filter_cons, decide_False by (simpl; auto).
    by rewrite filter_nil, app_nil_r.
  - rewrite filter_update_where by done. apply update_where_none.
    apply Forall_forall. intros row Hrow.
    apply list_elem_of_filter in Hrow as [Hid _].
    apply bool_decide_eq_false_2. congruence.
  - rewrite filter_update_where by done. apply update_where_none.
    apply Forall_forall. intros row Hrow.
    apply list_elem_of_filter in Hrow as [Hid _].
    apply bool_decide_eq_false_2. congruence.
Qed.

Lemma other_steps_apply executionId stepIds db w :
  issued_by executionId stepIds w ->
  drawn_for executionId stepIds db ->
  other_steps executionId (db_apply db w) = other_steps executionId db /\
  drawn_for executionId stepIds (db_apply db w).
Proof.
  unfold other_steps, drawn_for. intros Hw Hdrawn.
  assert (forall id set,
            (exists j, id = stepIds j) ->
            (forall r, st_execution_id (set r) = st_execution_id r /\ st_id (set r) = st_id r) ->
            filter (fun row => st_execution_id row <> executionId)
              (update_where (fun row => bool_decide (st_id row = id)) set (execution_steps db))
            = filter (fun row => st_execution_id row <> executionId) (execution_steps db) /\
            Forall (fun row => (exists j, st_id row = stepIds j) ->
                               st_execution_id row = executionId)
              (update_where (fun row => bool_decide (st_id row = id)) set
                 (execution_steps db))) as Hupdate.
  { intros id set [j ->] Hset. split.
    - rewrite filter_update_where by (intros r; by destruct (Hset r) as [-> _]).
      apply update_where_none. apply Forall_forall. intros row Hrow.
      apply list_elem_of_filter in Hrow as [Hother Hrow].
      apply bool_decide_eq_false_2. intros Hid. apply Hother.
      rewrite Forall_forall in Hdrawn. apply Hdrawn; [done|]. by exists j.
    - unfold update_where. apply Forall_map. eapply Forall_impl; [exact Hdrawn|].
      intros row Hrow. simpl. destruct (Hset row) as [Hexecution Hid].
      case_bool_decide; [|done]. by rewrite Hexecution, Hid. }
  destruct w; simpl in *; try done.
  - destruct Hw as [-> Hid]. split.
    + rewrite filter_app, filter_cons, decide_False by (simpl; auto).
      by rewrite filter_nil, app_nil_r.
    + apply Forall_app. split; [done|]. by constructor.
  - by apply Hupdate.
  - by apply Hupdate.
Qed.

Lemma others_after executionId stepIds ws : forall db,
  Forall (issued_by executionId stepIds) ws ->
  drawn_for executionId stepIds db ->
  other_executions executionId (db_after db ws) = other_executions executionId db /\
  other_steps executionId (db_after db ws) = other_steps executionId db.
Proof.
  unfold db_after.
  induction ws as [|w ws IH]; intros db Hws Hdrawn; [done|].
  apply Forall_cons_1 in Hws as [Hw Hws]. simpl.
  destruct (other_steps_apply executionId stepIds db w Hw Hdrawn) as [Hsteps Hdrawn'].
  destruct (IH _ Hws Hdrawn') as [-> ->].
  by rewrite (other_executions_apply executionId stepIds db w Hw), Hsteps.
Qed.

(** X19. A request to execute leaves the other executions alone. When
    none of the step identifiers drawn for it is the identifier of a
    stored step row, then at every point of the request and of its
    background task the execution rows under other identifiers, and the
    step rows of other executions, are exactly as they were before the
    request. *)
Theorem X19_other_executions_untouched db workflowId executionId stepIds ws :
  (forall j, stepIds j ∉ map st_id (execution_steps db)) ->
  ws `prefix_of`
    writes_of (snd (post_executions_execute executeAgentStep sql_bind db workflowId
                      executionId stepIds)) ->
  other_executions executionId (db_after db ws) = other_executions executionId db /\
  other_steps executionId (db_after db ws) = other_steps executionId db.
Proof.
  intros Hfresh [rest Hrest]. apply others_after with stepIds.
  - assert (Forall (issued_by executionId stepIds)
              (writes_of (snd (post_executions_execute executeAgentStep sql_bind db
                                 workflowId executionId stepIds)))) as Hall.
    { rewrite execute_writes.
      destruct (select_workflow db workflowId) as [workflow|]; [|by constructor].
      constructor; [done|].
      apply (Run_issued executionId stepIds 0 (wf_steps_json workflow) empty_context).
      apply for_loop_Run. }
    rewrite Hrest in Hall. by apply Forall_app in Hall as [Hall _].
  - unfold drawn_for. apply Forall_forall. intros row Hrow [j Hj].
    exfalso. apply (Hfresh j). rewrite <- Hj. apply list_elem_of_fmap. by exists row.
Qed.

Lemma Run_attempts executionId stepIds i steps context events :
  Run executionId stepIds i steps context events ->
  exists k,
    (k <= length steps)%nat /\
    attempts events = imap (fun j step => ((i + j)%nat, step)) (take k steps) /\
    created_indices (writes_of events) = seq i k.
Proof.
  unfold attempts.
  induction 1 as [i context|i step rest context result error em tail Htail IH
                 |i step rest context result error em|i step rest context fault].
  - by exists 0%nat.
  - destruct IH as (k & Hk & Hcalls & Hrows). exists (S k).
    split_and!; [simpl; lia| |].
    + simpl in *.
      rewrite Hcalls, Nat.add_0_r. f_equal. apply imap_ext.
      intros j s _. simpl. f_equal. lia.
    + simpl in *. unfold created_indices in *. by rewrite Hrows.
  - exists 1%nat. split_and!; [simpl; lia| |done].
    simpl. by rewrite ?take_0, Nat.add_0_r.
  - exists 1%nat. split_and!; [simpl; lia| |done].
    simpl. by rewrite ?take_0, Nat.add_0_r.
Qed.

(** X20. The runner is called once for each step row created, and for
    the steps of the plan: the calls of a background task are the first
    [k] steps of the plan, each once, in plan order and under its index,
    where [k] is the number of step rows the task creates. No step is
    retried and none is skipped. *)
Theorem X20_one_call_per_step executionId stepIds steps :
  let events := background_task executeAgentStep sql_bind executionId stepIds steps in
  exists k,
    (k <= length steps)%nat /\
    attempts events = imap (fun j step => (j, step)) (take k steps) /\
    created_indices (writes_of events) = seq 0 k.
Proof.
  simpl. unfold background_task.
  destruct (Run_attempts executionId stepIds 0 steps empty_context _
              (for_loop_Run executeAgentStep sql_bind executionId stepIds steps 0
                 empty_context)) as (k & Hk & Hcalls & Hrows).
  exists k. split_and!; done.
Qed.
End IsolationProperties.

(** ** The further properties at the sample data *)

Lemma X1_planner_propagates_witness :
  generate_no_plan 0 "weekly report" = Resolved None /\
  GeminiService.no_text None = true /\
  generateWorkflowPlan generate_no_plan sample_JSON_parse_plan 0 "weekly report"
  = Throw (mkError "Empty response from AI").
Proof.
  split; [reflexivity|]. split; [reflexivity|].
  destruct (X1_planner_propagates generate_no_plan sample_JSON_parse_plan 0 "weekly report")
    as (_ & Hempty & _).
  exact (Hempty None eq_refl eq_refl).
Defined.

Lemma X2_create_all_or_nothing_witness :
  ("w2" ∉ map wf_id (workflows sample_db)) /\
  planner_ok 0 (JStr "weekly report") = Resolved sample_plan /\
  sample_sql_bind (JStr "weekly report") = Normal (SqlText "weekly report") /\
  sample_sql_bind (JBool true)
  = Throw (mkError "SQLite3 can only bind numbers, strings, bigints, buffers, and null") /\
  select_workflow
    (db_after sample_db
       (writes_of (fst (post_workflows_create planner_ok sample_sql_bind 0
                          (JStr "weekly report") "w2"))))
    "w2"
  = Some {| wf_id := "w2"; wf_name := "report"; wf_description := "load and notify";
            wf_original_prompt := SqlText "weekly report";
            wf_steps_json := [stepA; stepB] |} /\
  post_workflows_create planner_ok sample_sql_bind 0 (JBool true) "w2"
  = ([], Next {| create_status := 500;
                 create_body :=
                   CreateError
                     (JStr "SQLite3 can only bind numbers, strings, bigints, buffers, and null")
              |}).
Proof.
  assert ("w2" ∉ map wf_id (workflows sample_db)) as Hnew.
  { simpl. intros Hin. apply list_elem_of_singleton in Hin. discriminate Hin. }
  split; [exact Hnew|]. split; [reflexivity|]. split; [reflexivity|].
  split; [reflexivity|].
  pose proof (X2_create_all_or_nothing planner_ok sample_sql_bind sample_db 0
                (JStr "weekly report") "w2" Hnew) as Hstored.
  pose proof (X2_create_all_or_nothing planner_ok sample_sql_bind sample_db 0
                (JBool true) "w2" Hnew) as Hrefused.
  cbv zeta in Hstored, Hrefused.
  destruct Hstored as (Hstored & _). destruct Hrefused as (_ & Hrefused & _).
  destruct (Hstored sample_plan (SqlText "weekly report") eq_refl eq_refl)
    as (_ & _ & Hfound).
  split; [exact Hfound|].
  exact (Hrefused sample_plan
           (mkError "SQLite3 can only bind numbers, strings, bigints, buffers, and null")
           eq_refl eq_refl).
Defined.

Lemma X3_create_keeps_store_witness :
  referential sample_db /\
  referential
    (db_after sample_db
       (writes_of (fst (post_workflows_create planner_ok sample_sql_bind 0
                          (JStr "weekly report") "w2")))).
Proof.
  assert (referential sample_db) as Href by repeat constructor.
  split; [exact Href|].
  pose proof (X3_create_keeps_store planner_ok sample_sql_bind sample_db 0
                (JStr "weekly report") "w2") as Hkeeps.
  cbv zeta in Hkeeps. destruct Hkeeps as (_ & _ & _ & Hreferential & _).
  exact (Hreferential Href).
Defined.

Lemma X4_create_then_execute_witness :
  planner_ok 0 (JStr "weekly report") = Resolved sample_plan /\
  ("w2" ∉ map wf_id (workflows sample_db)) /\
  sample_sql_bind (JStr "weekly report") = Normal (SqlText "weekly report") /\
  fst (post_executions_execute runner_ok sample_sql_bind
         (db_after sample_db
            (writes_of (fst (post_workflows_create planner_ok sample_sql_bind 0
                               (JStr "weekly report") "w2"))))
         "w2" "e3" sample_stepIds)
  = res_json (ExecutionStarted "e3") /\
  sample_sql_bind (JObj [])
  = Throw (mkError "Too few parameter values were provided") /\
  fst (post_executions_execute runner_ok sample_sql_bind
         (db_after sample_db
            (writes_of (fst (post_workflows_create planner_ok sample_sql_bind 0
                               (JObj []) "w2"))))
         "w2" "e3" sample_stepIds)
  = {| http_status := 404; body := ErrorBody "Workflow not found" |}.
Proof.
  assert ("w2" ∉ map wf_id (workflows sample_db)) as Hnew.
  { simpl. intros Hin. apply list_elem_of_singleton in Hin. discriminate Hin. }
  split; [reflexivity|]. split; [exact Hnew|]. split; [reflexivity|].
  pose proof (X4_create_then_execute planner_ok sample_sql_bind runner_ok sample_db 0
                (JStr "weekly report") "w2" sample_plan "e3" sample_stepIds eq_refl Hnew)
    as Hstored.
  pose proof (X4_create_then_execute planner_ok sample_sql_bind runner_ok sample_db 0
                (JObj []) "w2" sample_plan "e3" sample_stepIds eq_refl Hnew)
    as Hrefused.
  cbv zeta in Hstored, Hrefused.
  destruct Hstored as [Hstored _]. destruct Hrefused as [_ Hrefused].
  rewrite (Hstored (SqlText "weekly report") eq_refl).
  rewrite (Hrefused (mkError "Too few parameter values were provided") eq_refl).
  split; [reflexivity|]. split; reflexivity.
Defined.


Lemma X7_caught_fault_not_announced_witness :
  background_task runner_object_error sample_sql_bind "e3" sample_stepIds [stepA; stepB]
  = fault_before ++ Db (UpdateExecutionStepFailed (SqlText refusal) "step-0") :: fault_after /\
  exists msg,
    SqlText refusal = SqlText msg /\
    messages_of fault_after = [execution_update "e3" Failed (JStr msg)].
Proof.
  assert (background_task runner_object_error sample_sql_bind "e3" sample_stepIds
            [stepA; stepB]
          = fault_before ++ Db (UpdateExecutionStepFailed (SqlText refusal) "step-0")
              :: fault_after) as Hrun
    by (vm_compute; reflexivity).
  split; [exact Hrun|].
  exact (X7_caught_fault_not_announced runner_object_error sample_sql_bind "e3"
           sample_stepIds [stepA; stepB] fault_before (SqlText refusal) "step-0"
           fault_after Hrun).
Defined.

Lemma X8_execute_creates_one_execution_witness :
  ("w1" ∈ map wf_id (workflows sample_db)) /\
  fst (post_executions_execute runner_ok sample_sql_bind sample_db "w1" "e3" sample_stepIds)
  = res_json (ExecutionStarted "e3") /\
  omap created_execution
    (writes_of (snd (post_executions_execute runner_ok sample_sql_bind sample_db "w1" "e3"
                       sample_stepIds)))
  = [("e3", "w1", Running)].
Proof.
  assert ("w1" ∈ map wf_id (workflows sample_db)) as Hknown.
  { simpl. apply list_elem_of_singleton. reflexivity. }
  split; [exact Hknown|].
  pose proof (X8_execute_creates_one_execution runner_ok sample_sql_bind sample_db "w1" "e3"
                sample_stepIds) as Hexecute.
  cbv zeta in Hexecute. destruct Hexecute as (_ & Haccepted & _).
  destruct (Haccepted Hknown) as (Hresponse & _ & Hcreated).
  split; assumption.
Defined.

Lemma X9_rows_mirror_plan_witness :
  steps_of "e3" sample_db = [] /\
  map row_key
    (steps_of "e3"
       (db_after sample_db
          (writes_of (background_task runner_timeout sample_sql_bind "e3" sample_stepIds
                        [stepA; stepB]))))
  `prefix_of` plan_keys [stepA; stepB].
Proof.
  assert (steps_of "e3" sample_db = []) as Hnone by reflexivity.
  split; [exact Hnone|].
  apply (X9_rows_mirror_plan runner_timeout sample_sql_bind "e3" sample_stepIds sample_db
           [stepA; stepB]); [exact Hnone|reflexivity].
Defined.

Lemma X10_successful_run_persisted_witness :
  steps_of "e3" started_db = [] /\
  map row_key
    (steps_of "e3"
       (db_after started_db
          (writes_of (background_task runner_ok sample_sql_bind "e3" sample_stepIds
                        [stepA; stepB]))))
  = plan_keys [stepA; stepB].
Proof.
  assert (steps_of "e3" started_db = []) as Hnone by reflexivity.
  split; [exact Hnone|].
  pose proof (X10_successful_run_persisted runner_ok sample_sql_bind "e3" sample_stepIds
                started_db [stepA; stepB] Hnone) as Hrun.
  cbv zeta in Hrun. destruct Hrun as (Hkeys & _).
  - intros i step context _. destruct i; reflexivity.
  - exact Hkeys.
Defined.

Lemma X11_results_persisted_witness :
  steps_of "e3" started_db = [] /\
  NoDup (map sample_stepIds (seq 0 2)) /\
  ((0%nat, rows3)
   ∈ completions (background_task runner_ok sample_sql_bind "e3" sample_stepIds
                    [stepA; stepB])) /\
  exists row,
    steps_of "e3"
      (db_after started_db
         (writes_of (background_task runner_ok sample_sql_bind "e3" sample_stepIds
                       [stepA; stepB]))) !! 0%nat = Some row /\
    st_id row = "step-0" /\ st_result_json row = Some rows3.
Proof.
  assert (steps_of "e3" started_db = []) as Hnone by reflexivity.
  assert (NoDup (map sample_stepIds (seq 0 2))) as Hdistinct.
  { simpl. apply NoDup_cons. split.
    - intros Hin. apply list_elem_of_singleton in Hin. discriminate Hin.
    - apply NoDup_singleton. }
  assert ((0%nat, rows3)
          ∈ completions (background_task runner_ok sample_sql_bind "e3" sample_stepIds
                           [stepA; stepB])) as Hreported.
  { apply (list_elem_of_lookup_2 _ 0). vm_compute. reflexivity. }
  split; [exact Hnone|]. split; [exact Hdistinct|]. split; [exact Hreported|].
  destruct (X11_results_persisted runner_ok sample_sql_bind "e3" sample_stepIds started_db
              [stepA; stepB] 0%nat rows3 Hnone Hdistinct Hreported)
    as (row & Hrow & Hid & _ & _ & Hresult & _).
  exists row. repeat split; assumption.
Defined.

Lemma X12_detail_after_run_witness :
  ("w1" ∈ map wf_id (workflows sample_db)) /\
  referential sample_db /\
  ("e3" ∉ map ex_id (workflow_executions sample_db)) /\
  exists row,
    body (get_execution
            (db_after sample_db
               (writes_of (snd (post_executions_execute runner_ok sample_sql_bind sample_db
                                  "w1" "e3" sample_stepIds))))
            "e3")
    = ExecutionDetail (Some row)
        (steps_of "e3"
           (db_after sample_db
              (writes_of (snd (post_executions_execute runner_ok sample_sql_bind sample_db
                                 "w1" "e3" sample_stepIds))))) /\
    ex_workflow_id row = "w1" /\ is_terminal (ex_status row) = true.
Proof.
  assert ("w1" ∈ map wf_id (workflows sample_db)) as Hknown.
  { simpl. apply list_elem_of_singleton. reflexivity. }
  assert (referential sample_db) as Href by repeat constructor.
  assert ("e3" ∉ map ex_id (workflow_executions sample_db)) as Hnew.
  { simpl. rewrite !not_elem_of_cons. repeat split; try discriminate. apply not_elem_of_nil. }
  split; [exact Hknown|]. split; [exact Href|]. split; [exact Hnew|].
  pose proof (X12_detail_after_run runner_ok sample_sql_bind sample_db "w1" "e3"
                sample_stepIds Hknown Href Hnew) as Hdetail.
  cbv zeta in Hdetail. destruct Hdetail as (row & Hbody & _ & Hworkflow & Hterminal & _).
  exists row. rewrite Hbody. repeat split; assumption.
Defined.

Lemma X13_success_rate_percentage_witness :
  count_status Completed (workflow_executions (db_one Failed)) = 0%nat /\
  successRate (analytics_overview (db_one Failed)) = 0%Z /\
  workflow_executions (db_one Completed) <> [] /\
  count_status Completed (workflow_executions (db_one Completed))
  = length (workflow_executions (db_one Completed)) /\
  successRate (analytics_overview (db_one Completed)) = 100%Z.
Proof.
  assert (workflow_executions (db_one Completed) <> []) as Hsome by discriminate.
  destruct (X13_success_rate_percentage (db_one Failed)) as (_ & Hnone & _).
  destruct (X13_success_rate_percentage (db_one Completed)) as (_ & _ & Hall).
  split; [reflexivity|]. split; [exact (Hnone eq_refl)|].
  split; [exact Hsome|]. split; [reflexivity|]. exact (Hall Hsome eq_refl).
Defined.

Lemma X15_listing_is_join_witness :
  (forall rows : list (ExecutionRow * string), reverse rows ≡ₚ rows) /\
  NoDup (map wf_id (workflows sample_db)) /\
  executions_reference_workflows sample_db /\
  map fst (get_executions reverse sample_db) ≡ₚ workflow_executions sample_db.
Proof.
  assert (forall rows : list (ExecutionRow * string), reverse rows ≡ₚ rows) as Horder
    by (intros rows; apply reverse_Permutation).
  assert (NoDup (map wf_id (workflows sample_db))) as Hdistinct
    by apply NoDup_singleton.
  assert (executions_reference_workflows sample_db) as Href.
  { repeat constructor. }
  split; [exact Horder|]. split; [exact Hdistinct|]. split; [exact Href|].
  destruct (X15_listing_is_join reverse Horder sample_db) as (_ & _ & Hcomplete).
  exact (Hcomplete Hdistinct Href).
Defined.

Lemma X16_broadcast_reaches_open_clients_witness :
  ("c3" ∉ map fst sample_clients) /\
  clients_delete "c3" (clients_set "c3" 3%nat sample_clients) = sample_clients /\
  (forall entry, entry ∈ sample_clients -> snd entry = 1%nat -> fst entry = "c1") /\
  received 1%nat
    (broadcast sample_readyState (clients_delete "c1" sample_clients)
       (execution_update "e3" Running JUndefined)) = [].
Proof.
  assert ("c3" ∉ map fst sample_clients) as Hnew.
  { simpl. rewrite !not_elem_of_cons. repeat split; try discriminate. apply not_elem_of_nil. }
  assert (forall entry, entry ∈ sample_clients -> snd entry = 1%nat -> fst entry = "c1")
    as Honly.
  { intros entry Hentry Hws. unfold sample_clients in Hentry.
    apply elem_of_cons in Hentry as [->|Hentry]; [reflexivity|].
    apply list_elem_of_singleton in Hentry as ->. discriminate Hws. }
  destruct (X16_broadcast_reaches_open_clients sample_readyState sample_clients
              (execution_update "e3" Running JUndefined)) as (_ & Hrestore & Hclosed).
  split; [exact Hnew|]. split; [exact (Hrestore "c3" 3%nat Hnew)|].
  split; [exact Honly|]. exact (Hclosed "c1" 1%nat Honly).
Defined.

Lemma X17_connected_client_stream_witness :
  (forall k : nat,
      (k < length (messages_of (background_task runner_timeout sample_sql_bind "e3"
                                  sample_stepIds [stepA; stepB])))%nat ->
      sample_readyState 1%nat = OPEN /\
      length (filter (fun entry => snd entry = 1%nat) sample_clients) = 1%nat) /\
  received 1%nat
    (sends (fun _ => sample_readyState) (fun _ => sample_clients)
       (background_task runner_timeout sample_sql_bind "e3" sample_stepIds [stepA; stepB]))
  = messages_of (background_task runner_timeout sample_sql_bind "e3" sample_stepIds
                   [stepA; stepB]).
Proof.
  assert (forall k : nat,
             (k < length (messages_of (background_task runner_timeout sample_sql_bind "e3"
                                         sample_stepIds [stepA; stepB])))%nat ->
             sample_readyState 1%nat = OPEN /\
             length (filter (fun entry => snd entry = 1%nat) sample_clients) = 1%nat)
    as Hconnected.
  { intros k _. split; reflexivity. }
  split; [exact Hconnected|].
  destruct (X17_connected_client_stream (fun _ => sample_readyState)
              (fun _ => sample_clients)
              (background_task runner_timeout sample_sql_bind "e3" sample_stepIds
                 [stepA; stepB]) 1%nat) as [Hstream _].
  exact (Hstream Hconnected).
Defined.

Lemma X18_dashboard_selection_witness :
  referential sample_db /\
  ("e3" ∉ map ex_id (workflow_executions sample_db)) /\
  ("undefined" ∉ map ex_id (workflow_executions sample_db)) /\
  ("w9" ∉ map wf_id (workflows sample_db)) /\
  handleExecute
    (fst (post_executions_execute runner_ok sample_sql_bind sample_db "w9" "e3"
            sample_stepIds))
    sample_db
  = ExecutionDetail None [].
Proof.
  assert (referential sample_db) as Href by repeat constructor.
  assert ("e3" ∉ map ex_id (workflow_executions sample_db)) as Hnew.
  { simpl. rewrite !not_elem_of_cons. repeat split; try discriminate. apply not_elem_of_nil. }
  assert ("undefined" ∉ map ex_id (workflow_executions sample_db)) as Hundefined.
  { simpl. rewrite !not_elem_of_cons. repeat split; try discriminate. apply not_elem_of_nil. }
  assert ("w9" ∉ map wf_id (workflows sample_db)) as Hunknown.
  { simpl. intros Hin. apply list_elem_of_singleton in Hin. discriminate Hin. }
  split; [exact Href|]. split; [exact Hnew|]. split; [exact Hundefined|].
  split; [exact Hunknown|].
  pose proof (X18_dashboard_selection runner_ok sample_sql_bind sample_db "w9" "e3"
                sample_stepIds [] Href Hnew Hundefined) as Hselection.
  cbv zeta in Hselection.
  destruct Hselection as [Hblank _]; [reflexivity|reflexivity|].
  exact (Hblank Hunknown).
Defined.

Lemma X19_other_executions_untouched_witness :
  (forall j, sample_stepIds j ∉ map st_id (execution_steps sample_db)) /\
  other_steps "e3"
    (db_after sample_db
       (writes_of (snd (post_executions_execute runner_timeout sample_sql_bind sample_db
                          "w1" "e3" sample_stepIds))))
  = execution_steps sample_db.
Proof.
  assert (forall j, sample_stepIds j ∉ map st_id (execution_steps sample_db)) as Hfresh.
  { intros j Hin. simpl in Hin. apply list_elem_of_singleton in Hin.
    destruct j as [|[|j]]; discriminate Hin. }
  split; [exact Hfresh|].
  destruct (X19_other_executions_untouched runner_timeout sample_sql_bind sample_db "w1"
              "e3" sample_stepIds
              (writes_of (snd (post_executions_execute runner_timeout sample_sql_bind
                                 sample_db "w1" "e3" sample_stepIds)))
              Hfresh (reflexivity _)) as [_ Hsteps].
  rewrite Hsteps. reflexivity.
Defined.
